(** * ThreatExchange [TE.py]: the [Net] client, embedded and verified

    The Python class [Net] of
    [api-reference-examples/python/te-tag-query/TE.py] is translated
    function by function.  Python values are JSON values, Python dicts are
    insertion-ordered association lists, exceptions are an explicit
    [Raise] outcome, and everything that touches the network, the page
    callback or a dict owned by the caller runs in a small state and error
    monad over a [world]. *)

From Stdlib Require Import ZArith Lia Bool Ascii String DecimalString.
From Stdlib Require Import Sorted Permutation.
From stdpp Require Import base option list.

Local Open Scope string_scope.
Local Open Scope Z_scope.

(** ** Python values *)

(** The values that [json.loads] produces and that the client passes
    around.  [JNull] is Python's [None]; numbers are integers. *)
#[warnings="-register-all"]
Inductive json : Type :=
| JNull
| JBool (b : bool)
| JNum (n : Z)
| JStr (s : string)
| JArr (items : list json)
| JObj (fields : list (string * json)).

(** A Python [dict] with string keys, in insertion order. *)
Definition dict : Type := list (string * json).

Definition is_none (v : json) : bool :=
  match v with JNull => true | _ => false end.

Definition newline : string := String "010"%char EmptyString.
Definition dquote : string := String "034"%char EmptyString.

Module Dict.

(** [k in d] and [d[k]] for a key that is there. *)
Fixpoint lookup (k : string) (d : dict) : option json :=
  match d with
  | [] => None
  | (k', v) :: d' => if String.eqb k k' then Some v else lookup k d'
  end.

Definition mem (k : string) (d : dict) : bool :=
  match lookup k d with Some _ => true | None => false end.

(** [d.get(k)]: [None] when the key is absent. *)
Definition get (d : dict) (k : string) : json :=
  match lookup k d with Some v => v | None => JNull end.

(** [d[k] = v]: an existing key keeps its position. *)
Fixpoint set (k : string) (v : json) (d : dict) : dict :=
  match d with
  | [] => [(k, v)]
  | (k', v') :: d' =>
      if String.eqb k k' then (k', v) :: d' else (k', v') :: set k v d'
  end.

(** What [del d[k]] leaves when the key is there. *)
Fixpoint remove (k : string) (d : dict) : dict :=
  match d with
  | [] => []
  | (k', v') :: d' =>
      if String.eqb k k' then remove k d' else (k', v') :: remove k d'
  end.

(** [d.update(other)]. *)
Definition update (d other : dict) : dict :=
  fold_left (fun acc kv => set (fst kv) (snd kv) acc) other d.

(** [{k: v for k, v in d.items() if keep(k)}]. *)
Definition filter_keys (keep : string -> bool) (d : dict) : dict :=
  List.filter (fun kv => keep (fst kv)) d.

Definition keys (d : dict) : list string := map fst d.

End Dict.

(** ** Exceptions and outcomes *)

Inductive exn : Type :=
| KeyError (key : string)
| TypeError
| ValueError
| IndexError
| AttributeError
| OverflowError
| URLError
| HTTPError (code : Z) (body : option json)
| Exception (msg : string).

(** What running a piece of Python gives: a value, a raised exception, or
    (for the models of [while] loops only) exhausted fuel. *)
Inductive outcome (A : Type) : Type :=
| Ret (a : A)
| Raise (e : exn)
| OutOfFuel.
Arguments Ret {A} a.
Arguments Raise {A} e.
Arguments OutOfFuel {A}.

#[export] Instance outcome_ret : MRet outcome := fun _ a => Ret a.
#[export] Instance outcome_bind : MBind outcome := fun _ _ f m =>
  match m with
  | Ret a => f a
  | Raise e => Raise e
  | OutOfFuel => OutOfFuel
  end.

(** [for x in l: ... f(x) ...], collecting the results, stopping at the
    first exception. *)
Fixpoint for_each {A B : Type} (f : A -> outcome B) (l : list A)
  : outcome (list B) :=
  match l with
  | [] => Ret []
  | x :: l' => y ← f x; ys ← for_each f l'; Ret (y :: ys)
  end.

(** ** Python's dynamic operations on JSON values *)

(** [v[k]] for a string key [k]. *)
Definition py_getitem (v : json) (k : string) : outcome json :=
  match v with
  | JObj d =>
      match Dict.lookup k d with
      | Some x => Ret x
      | None => Raise (KeyError k)
      end
  | _ => Raise TypeError
  end.

(** [del v[k]]. *)
Definition py_delitem (v : json) (k : string) : outcome json :=
  match v with
  | JObj d =>
      if Dict.mem k d then Ret (JObj (Dict.remove k d))
      else Raise (KeyError k)
  | _ => Raise TypeError
  end.

(** [v.get(k)]: only dicts have the method. *)
Definition py_get (v : json) (k : string) : outcome json :=
  match v with
  | JObj d => Ret (Dict.get d k)
  | _ => Raise AttributeError
  end.

(** [v[k] = x]. *)
Definition py_setitem (v : json) (k : string) (x : json) : outcome json :=
  match v with
  | JObj d => Ret (JObj (Dict.set k x d))
  | _ => Raise TypeError
  end.

Fixpoint is_substring_at (needle hay : string) : bool :=
  match needle, hay with
  | EmptyString, _ => true
  | String a n', String b h' => Ascii.eqb a b && is_substring_at n' h'
  | String _ _, EmptyString => false
  end.

Fixpoint is_substring (needle hay : string) : bool :=
  is_substring_at needle hay ||
  match hay with
  | EmptyString => false
  | String _ h' => is_substring needle h'
  end.

Definition json_is_str (k : string) (v : json) : bool :=
  match v with JStr s => String.eqb k s | _ => false end.

(** [k in v] for a string [k]: key of a dict, element of a list,
    substring of a string; anything else is not a container. *)
Definition py_contains (k : string) (v : json) : outcome bool :=
  match v with
  | JObj d => Ret (Dict.mem k d)
  | JArr l => Ret (existsb (json_is_str k) l)
  | JStr s => Ret (is_substring k s)
  | _ => Raise TypeError
  end.

Fixpoint chars (s : string) : list json :=
  match s with
  | EmptyString => []
  | String a s' => JStr (String a EmptyString) :: chars s'
  end.

(** [iter(v)]: a list gives its items, a dict its keys, a string its
    characters. *)
Definition py_iter (v : json) : outcome (list json) :=
  match v with
  | JArr l => Ret l
  | JObj d => Ret (map JStr (Dict.keys d))
  | JStr s => Ret (chars s)
  | _ => Raise TypeError
  end.

(** [v.items()]. *)
Definition py_items (v : json) : outcome (list (string * json)) :=
  match v with
  | JObj d => Ret d
  | _ => Raise AttributeError
  end.

(** [a < b].  Strings compare by code point, numbers and booleans by
    value; every other pair is the [TypeError] of unorderable types
    (the ordering of lists is not modelled: the client only sorts tag
    texts). *)
Definition py_lt (a b : json) : outcome bool :=
  match a, b with
  | JStr s, JStr t => Ret (String.ltb s t)
  | JNum m, JNum n => Ret (m <? n)
  | JNum m, JBool c => Ret (m <? Z.b2z c)
  | JBool c, JNum n => Ret (Z.b2z c <? n)
  | JBool c, JBool d => Ret (Z.b2z c <? Z.b2z d)
  | _, _ => Raise TypeError
  end.

(** [sorted(l)] and [l.sort()]: a stable sort that only asks [<].  An
    element goes in front of the first element of the sorted rest that is
    not smaller than it. *)
Fixpoint sorted_insert (x : json) (l : list json) : outcome (list json) :=
  match l with
  | [] => Ret [x]
  | y :: l' =>
      b ← py_lt y x;
      if b : bool then (l'' ← sorted_insert x l'; Ret (y :: l''))
      else Ret (x :: y :: l')
  end.

Fixpoint py_sorted (l : list json) : outcome (list json) :=
  match l with
  | [] => Ret []
  | x :: l' => s ← py_sorted l'; sorted_insert x s
  end.

(** ** The world outside the client *)

Inductive method : Type := GET | POST.

(** One call of [urllib.request.urlopen]. *)
Record request : Type := Request {
  req_method : method;
  req_url : string;
  req_data : option string
}.

(** What [urlopen] does with a request.  [body] is what
    [json.loads(x.read().decode("utf-8"))] gives on the reply, [None]
    when that raises. *)
Inductive http_outcome : Type :=
| HttpResponse (body : option json)
| HttpFailure (code : Z) (body : option json)
| ConnectionFailure.

(** A reference to a dict owned by the caller. *)
Definition loc : Type := nat.

(** The requests issued so far, the arguments of the page callback's
    invocations so far (both oldest first), and the dicts that are passed
    by reference. *)
Record world : Type := World {
  requests : list request;
  callbacks : list (list json);
  heap : list dict
}.

Definition M (A : Type) : Type := world -> outcome A * world.

#[export] Instance M_ret : MRet M := fun _ a w => (Ret a, w).
#[export] Instance M_bind : MBind M := fun _ _ f m w =>
  match m w with
  | (Ret a, w') => f a w'
  | (Raise e, w') => (Raise e, w')
  | (OutOfFuel, w') => (OutOfFuel, w')
  end.

Definition lift {A : Type} (o : outcome A) : M A := fun w => (o, w).
Definition raise {A : Type} (e : exn) : M A := lift (Raise e).
Definition out_of_fuel {A : Type} : M A := lift OutOfFuel.

(** [callback(arg)]. *)
Definition invoke_callback (arg : list json) : M unit := fun w =>
  (Ret (), World (requests w) (callbacks w ++ [arg]) (heap w)).

Definition heap_read (p : loc) : M dict := fun w =>
  match heap w !! p with
  | Some d => (Ret d, w)
  | None => (Raise (Exception "unbound reference"), w)
  end.

Definition heap_write (p : loc) (d : dict) : M unit := fun w =>
  (Ret (), World (requests w) (callbacks w) (<[p := d]> (heap w))).

Definition heap_alloc (d : dict) : M loc := fun w =>
  (Ret (length (heap w)), World (requests w) (callbacks w) (heap w ++ [d])).

(** [p.get(k)] on a dict held by reference. *)
Definition dget (p : loc) (k : string) : M json :=
  d ← heap_read p; mret (Dict.get d k).

(** What the client takes from its surroundings: the class attributes
    that are set once, the remote server (its reply to the [n]-th request
    of the run), the library functions [urllib.parse.quote], [str],
    [urllib.parse.urlencode], [int] on a string ([None] for
    [ValueError]), [int(datetime.strptime(s, fmt).timestamp())], and
    [int((datetime.now() - timedelta(seconds=n)).timestamp())]. *)
Record Env : Type := {
  TE_BASE_URL : string;
  APP_TOKEN : option string;
  server : nat -> request -> http_outcome;
  quote : string -> string;
  py_str : json -> string;
  urlencode : dict -> string;
  py_int : string -> option Z;
  strptime_timestamp : string -> string -> outcome Z;
  now_minus : Z -> outcome Z
}.

Definition THREAT_DESCRIPTOR : string := "THREAT_DESCRIPTOR".
Definition DEFAULT_TE_BASE_URL : string := "https://graph.facebook.com/v6.0".

Definition POST_PARAM_NAMES : list (string * string) :=
  [ ("indicator", "indicator");
    ("type", "type");
    ("descriptor_id", "descriptor_id");
    ("description", "description");
    ("share_level", "share_level");
    ("status", "status");
    ("privacy_type", "privacy_type");
    ("privacy_members", "privacy_members");
    ("tags", "tags");
    ("add_tags", "add_tags");
    ("remove_tags", "remove_tags");
    ("confidence", "confidence");
    ("precision", "precision");
    ("review_status", "review_status");
    ("severity", "severity");
    ("expired_on", "expired_on");
    ("first_active", "first_active");
    ("last_active", "last_active");
    ("related_ids_for_upload", "related_ids_for_upload");
    ("related_triples_for_upload_as_json", "related_triples_for_upload_as_json");
    ("reactions", "reactions");
    ("reactions_to_remove", "reactions_to_remove") ].

(** [POST_PARAM_NAMES.get(k)]. *)
Fixpoint names_get (table : list (string * string)) (k : string)
  : option string :=
  match table with
  | [] => None
  | (k', v) :: t => if String.eqb k k' then Some v else names_get t k
  end.

(** [POST_PARAM_NAMES[k]] for the literal keys the client uses, all of
    which are in the table. *)
Definition pname (k : string) : string :=
  match names_get POST_PARAM_NAMES k with Some v => v | None => EmptyString end.

Section Net.

Context (E : Env).

(** [urllib.request.urlopen]: the request is logged and the server
    answers. *)
Definition urlopen (r : request) : M http_outcome := fun w =>
  (Ret (server E (length (requests w)) r),
   World (requests w ++ [r]) (callbacks w) (heap w)).

(** [... + cls.APP_TOKEN]: a [TypeError] while the token is [None]. *)
Definition app_token : outcome string :=
  match APP_TOKEN E with Some t => Ret t | None => Raise TypeError end.

(** [urllib.parse.quote(v)]. *)
Definition py_quote (v : json) : outcome string :=
  match v with JStr s => Ret (quote E s) | _ => Raise TypeError end.

(** *** HTTP-wrapper methods *)

(** The two-element list [tryGET] returns: [[response, None]] or
    [[None, e]]. *)
Inductive get_result : Type :=
| GotResponse (body : option json)
| GotError (code : Z) (body : option json).

(** [urlopen] takes a string; given any other JSON value it fails with
    an [AttributeError] before anything is sent.  Only [HTTPError] is
    caught. *)
Definition tryGET (url : json) : M get_result :=
  match url with
  | JStr u =>
      o ← urlopen (Request GET u None);
      match o with
      | HttpResponse body => mret (GotResponse body)
      | HttpFailure code body => mret (GotError code body)
      | ConnectionFailure => raise URLError
      end
  | _ => raise AttributeError
  end.

Fixpoint getJSONFromURL_loop (fuel : nat) (numTries : Z) (url : json)
  : M json :=
  match fuel with
  | O => out_of_fuel
  | S fuel' =>
      let numTries := numTries + 1 in
      r ← tryGET url;
      match r with
      | GotResponse body =>
          match body with
          | Some j => mret j
          | None => raise ValueError
          end
      | GotError code body =>
          if (code <? 500) || (code >=? 600) then raise (HTTPError code body)
          else if numTries >? 4 then raise (HTTPError code body)
          else getJSONFromURL_loop fuel' numTries url
      end
  end.

(** The [while True] loop leaves by [return] or [raise] within five
    rounds ([getJSONFromURL_fuel] below), so five units of fuel are
    all it ever uses. *)
Definition getJSONFromURL (url : json) : M json :=
  getJSONFromURL_loop 5 0 url.

(** *** Descriptors with a given tag *)

(** The keyword arguments of [processDescriptorIDsByTagID].  [verbose]
    and [showURLs] only print. *)
Record tag_options : Type := TagOptions {
  verbose : bool;
  showURLs : bool;
  includeIndicatorInOutput : bool;
  pageSize : json;
  taggedSince : json;
  taggedUntil : json
}.

(** The defaults of the [kwargs.get] calls. *)
Definition default_tag_options : tag_options :=
  TagOptions false false true (JNum 10) JNull JNull.

(** [startURL] of [processDescriptorIDsByTagID]. *)
Definition tagged_objects_url (tagID : string) (o : tag_options)
  : outcome string :=
  token ← app_token;
  let startURL :=
    TE_BASE_URL E ++ "/" ++ tagID ++ "/tagged_objects" ++ "/?access_token="
    ++ token ++ "&limit=" ++ py_str E (pageSize o) in
  startURL ←
    (if negb (is_none (taggedSince o))
     then q ← py_quote (taggedSince o); Ret (startURL ++ "&tagged_since=" ++ q)
     else Ret startURL);
  if negb (is_none (taggedUntil o))
  then q ← py_quote (taggedUntil o); Ret (startURL ++ "&tagged_until=" ++ q)
  else Ret startURL.

(** [nextURL] after one response: [paging.next] when both keys are
    there, else [None]. *)
Definition next_url (response : json) : outcome json :=
  hasPaging ← py_contains "paging" response;
  if hasPaging : bool then
    paging ← py_getitem response "paging";
    hasNext ← py_contains "next" paging;
    if hasNext : bool then py_getitem paging "next" else Ret JNull
  else Ret JNull.

(** The body of [for item in data]: the id to append, or [None] for
    [continue]. *)
Definition tagged_item_id (incl : bool) (item : json) : outcome (option json) :=
  itemID ← py_getitem item "id";
  itemType ← py_getitem item "type";
  _ ← (if incl then py_getitem item "name" else py_delitem item "name");
  if negb (json_is_str THREAT_DESCRIPTOR itemType) then Ret None
  else Ret (Some itemID).

(** What [ids.append] collects over the rounds of the loop. *)
Fixpoint appended (found : list (option json)) : list json :=
  match found with
  | [] => []
  | Some x :: f => x :: appended f
  | None :: f => appended f
  end.

(** [ids] after the [for] loop over one page. *)
Definition page_ids (incl : bool) (data : json) : outcome (list json) :=
  items ← py_iter data;
  found ← for_each (tagged_item_id incl) items;
  Ret (appended found).

(** [while nextURL != None: ...]. *)
Fixpoint tagged_pages_loop (fuel : nat) (o : tag_options) (nextURL : json)
  (pageIndex : Z) : M unit :=
  if is_none nextURL then mret ()
  else
    match fuel with
    | O => out_of_fuel
    | S fuel' =>
        response ← getJSONFromURL nextURL;
        data ← lift (py_getitem response "data");
        nextURL ← lift (next_url response);
        ids ← lift (page_ids (includeIndicatorInOutput o) data);
        _ ← invoke_callback ids;
        tagged_pages_loop fuel' o nextURL (pageIndex + 1)
    end.

(** [fuel] bounds the number of pages fetched. *)
Definition processDescriptorIDsByTagID (fuel : nat) (tagID : string)
  (o : tag_options) : M unit :=
  startURL ← lift (tagged_objects_url tagID o);
  tagged_pages_loop fuel o (JStr startURL) 0.

(** *** The id of a tag *)

(** The [lambda] of the [filter]: the item itself when its text is the
    name, [None] when it is dropped. *)
Definition tag_with_name (tagName : string) (o : json) : outcome (option json) :=
  text ← py_getitem o "text";
  Ret (if json_is_str tagName text then Some o else None).

(** Looks up the "objective tag" ID for a given tag.  The lookup gets
    everything that has the name as a prefix, so the results are
    filtered. *)
Definition getTagIDFromName (tagName : string) (showURLs : bool) : M json :=
  token ← lift app_token;
  let url :=
    TE_BASE_URL E ++ "/threat_tags" ++ "/?access_token=" ++ token
    ++ "&text=" ++ quote E tagName in
  response ← getJSONFromURL (JStr url);
  data ← lift (py_getitem response "data");
  items ← lift (py_iter data);
  found ← lift (for_each (tag_with_name tagName) items);
  match appended found with
  | o :: _ => lift (py_getitem o "id")
  | [] => mret JNull
  end.

(** *** Metadata for given ids *)

(** Lines 277-281 and 339-343: the tag wrapper becomes the sorted list
    of the tag texts. *)
Definition normalize_tags (descriptor : json) : outcome json :=
  tags ← py_get descriptor "tags";
  tags ← (if is_none tags then Ret (JArr []) else py_getitem tags "data");
  items ← py_iter tags;
  texts ← for_each (fun tag => py_getitem tag "text") items;
  sorted ← py_sorted texts;
  py_setitem descriptor "tags" (JArr sorted).

(** Lines 283-284 and 345-346. *)
Definition normalize_description (d : dict) : dict :=
  if is_none (Dict.get d "description")
  then Dict.set "description" (JStr EmptyString) d
  else d.

Definition normalize_description_of (descriptor : json) : outcome json :=
  match descriptor with
  | JObj d => Ret (JObj (normalize_description d))
  | _ => Raise AttributeError
  end.

(** The body of the [for] loop of [getInfoForIDs]. *)
Definition getInfoForIDs_item (incl : bool) (descriptor : json)
  : outcome json :=
  descriptor ←
    (if negb incl then py_delitem descriptor "raw_indicator"
     else Ret descriptor);
  descriptor ← normalize_tags descriptor;
  normalize_description_of descriptor.

(** [int(id)] under [try], for ids that may have come from stdin. *)
Definition check_id (id : json) : outcome unit :=
  match id with
  | JStr s =>
      match py_int E s with
      | Some _ => Ret ()
      | None =>
          Raise (Exception ("Malformed descriptor ID " ++ dquote ++ s ++ dquote))
      end
  | JNum _ | JBool _ => Ret ()
  | _ => Raise TypeError
  end.

(** The operands of [",".join(ids)]. *)
Definition as_str (v : json) : outcome string :=
  match v with JStr s => Ret s | _ => Raise TypeError end.

Definition descriptor_fields : string :=
  "&fields=raw_indicator,type,added_on,last_updated,confidence,owner,privacy_type,review_status,status,severity,share_level,tags,description,reactions,my_reactions".

Definition getInfoForIDs (ids : list json) (incl : bool) : M (list json) :=
  _ ← lift (for_each check_id ids);
  token ← lift app_token;
  strs ← lift (for_each as_str ids);
  let url :=
    TE_BASE_URL E ++ "/?access_token=" ++ token ++ "&ids="
    ++ String.concat "," strs ++ descriptor_fields in
  response ← getJSONFromURL (JStr url);
  items ← lift (py_items response);
  lift (for_each (fun kv => getInfoForIDs_item incl (snd kv)) items).

(** *** Power search *)

(** The body of [for descriptor in data] of [doPowerSearch]. *)
Definition doPowerSearch_item (incl : bool) (descriptor : json)
  : outcome json :=
  descriptor ←
    (if negb incl then py_delitem descriptor "name" else Ret descriptor);
  descriptor ← normalize_tags descriptor;
  normalize_description_of descriptor.

Definition power_search_url (urlParams : dict) : outcome string :=
  token ← app_token;
  let startURL :=
    TE_BASE_URL E ++ "/threat_descriptors" ++ "/?access_token=" ++ token
    ++ descriptor_fields in
  fold_left
    (fun acc kv =>
       url ← acc; q ← py_quote (snd kv);
       Ret (url ++ "&" ++ fst kv ++ "=" ++ q))
    urlParams (Ret startURL).

Fixpoint power_search_loop (fuel : nat) (incl : bool) (nextURL : json)
  (pageIndex : Z) : M unit :=
  if is_none nextURL then mret ()
  else
    match fuel with
    | O => out_of_fuel
    | S fuel' =>
        response ← getJSONFromURL nextURL;
        data ← lift (py_getitem response "data");
        nextURL ← lift (next_url response);
        items ← lift (py_iter data);
        descriptors ← lift (for_each (doPowerSearch_item incl) items);
        _ ← invoke_callback descriptors;
        power_search_loop fuel' incl nextURL (pageIndex + 1)
    end.

Definition doPowerSearch (fuel : nat) (urlParams : dict) (incl : bool)
  : M unit :=
  startURL ← lift (power_search_url urlParams);
  power_search_loop fuel incl (JStr startURL) 0.

(** *** Client-side validation of post parameters *)

(** A list comprehension whose element expression reads the heap. *)
Fixpoint for_eachM {A B : Type} (f : A -> M B) (l : list A) : M (list B) :=
  match l with
  | [] => mret []
  | x :: l' => y ← f x; ys ← for_eachM f l'; mret (y :: ys)
  end.

Definition requiredFields : list string :=
  [ pname "indicator"; pname "type"; pname "description";
    pname "share_level"; pname "status"; pname "privacy_type" ].

(** [[x for x in l if x != None]]. *)
Fixpoint not_none (l : list (option string)) : list string :=
  match l with
  | [] => []
  | Some x :: l' => x :: not_none l'
  | None :: l' => not_none l'
  end.

(** Returns error message or [None]. *)
Definition validatePostPararmsForSubmit (postParams : loc)
  : M (option string) :=
  v ← dget postParams (pname "descriptor_id");
  if negb (is_none v)
  then mret (Some "descriptor_id must not be specified for submit.")
  else
    missingFields ←
      for_eachM
        (fun fieldName =>
           v ← dget postParams fieldName;
           mret (if is_none v then Some fieldName else None))
        requiredFields;
    let missingFields := not_none missingFields in
    match missingFields with
    | [] => mret None
    | [f] => mret (Some ("Missing field " ++ f))
    | _ => mret (Some ("Missing fields " ++ String.concat "," missingFields))
    end.

Definition validatePostPararmsForUpdate (postParams : loc)
  : M (option string) :=
  v ← dget postParams (pname "descriptor_id");
  if is_none v then mret (Some "Descriptor ID must be specified for update.")
  else
    v ← dget postParams (pname "indicator");
    if is_none v then
      v ← dget postParams (pname "type");
      mret (if negb (is_none v)
            then Some "Type must not be specified for update."
            else None)
    else mret (Some "Indicator must not be specified for update.").

Definition validatePostPararmsForCopy (postParams : loc)
  : M (option string) :=
  v ← dget postParams (pname "descriptor_id");
  if is_none v
  then mret (Some "Source-descriptor ID must be specified for copy.")
  else
    v ← dget postParams (pname "privacy_type");
    if is_none v then mret (Some "Privacy type must be specified for copy.")
    else
      v ← dget postParams (pname "privacy_members");
      if is_none v
      then mret (Some "Privacy members must be specified for copy.")
      else mret None.

(** *** Posting *)

(** The three-element list the posting methods return:
    [[errorMessage, e, responseBody]]. *)
Definition post_result : Type := option string * option exn * json.

(** Code-reuse for submit and update. *)
Definition _postThreatDescriptor (url : string) (postParams : loc)
  (showURLs dryRun : bool) : M post_result :=
  d ← heap_read postParams;
  let url :=
    fold_left
      (fun url kv => url ++ "&" ++ fst kv ++ "=" ++ quote E (py_str E (snd kv)))
      d url in
  if dryRun then mret (None, None, JStr EmptyString)
  else
    let data := urlencode E d in
    o ← urlopen (Request POST url (Some data));
    match o with
    | HttpResponse (Some responseBody) => mret (None, None, responseBody)
    | HttpResponse None => raise ValueError
    | HttpFailure code (Some responseBody) =>
        mret (None, Some (HTTPError code (Some responseBody)), responseBody)
    | HttpFailure code None => raise ValueError
    | ConnectionFailure => raise URLError
    end.

(** Does a single POST to the threat_descriptors endpoint. *)
Definition submitThreatDescriptor (postParams : loc) (showURLs dryRun : bool)
  : M post_result :=
  errorMessage ← validatePostPararmsForSubmit postParams;
  match errorMessage with
  | Some m => mret (Some m, None, JNull)
  | None =>
      token ← lift app_token;
      let url :=
        TE_BASE_URL E ++ "/threat_descriptors" ++ "/?access_token=" ++ token in
      _postThreatDescriptor url postParams showURLs dryRun
  end.

(** Does a single POST to the threat_descriptor ID endpoint. *)
Definition updateThreatDescriptor (postParams : loc) (showURLs dryRun : bool)
  : M post_result :=
  errorMessage ← validatePostPararmsForUpdate postParams;
  match errorMessage with
  | Some m => mret (Some m, None, JNull)
  | None =>
      d ← heap_read postParams;
      id ← lift (py_getitem (JObj d) (pname "descriptor_id"));
      id ← lift (as_str id);
      token ← lift app_token;
      let url := TE_BASE_URL E ++ "/" ++ id ++ "/?access_token=" ++ token in
      _postThreatDescriptor url postParams showURLs dryRun
  end.

(** [v.update(other)]. *)
Definition py_update (v : json) (other : dict) : outcome json :=
  match v with
  | JObj d => Ret (JObj (Dict.update d other))
  | _ => Raise AttributeError
  end.

(** Lines 464-504 of [copyThreatDescriptor]: from the deletion of
    [descriptor_id] in the caller's dict to the dict comprehension that
    builds the post parameters handed to [submitThreatDescriptor]. *)
Definition copy_payload (postParams : loc) (showURLs : bool) : M dict :=
  d ← heap_read postParams;
  sourceID ← lift (py_getitem (JObj d) "descriptor_id");
  _ ← heap_write postParams (Dict.remove "descriptor_id" d);
  sourceDescriptor ← getInfoForIDs [sourceID] true;
  sourceDescriptor ←
    match sourceDescriptor with
    | x :: _ => mret x
    | [] => raise IndexError
    end;
  let newDescriptor := sourceDescriptor in
  raw ← lift (py_getitem sourceDescriptor "raw_indicator");
  newDescriptor ← lift (py_setitem newDescriptor "indicator" raw);
  newDescriptor ← lift (py_delitem newDescriptor "raw_indicator");
  hasTags ← lift (py_contains "tags" newDescriptor);
  newDescriptor ←
    (if hasTags : bool then
       tags ← lift (py_getitem newDescriptor "tags");
       if is_none tags then lift (py_delitem newDescriptor "tags")
       else mret newDescriptor
     else mret newDescriptor);
  hasReactions ← lift (py_contains "reactions" newDescriptor);
  newDescriptor ←
    (if hasReactions : bool then lift (py_delitem newDescriptor "reactions")
     else mret newDescriptor);
  overrides ← heap_read postParams;
  newDescriptor ← lift (py_update newDescriptor overrides);
  items ← lift (py_items newDescriptor);
  mret (Dict.filter_keys
          (fun key =>
             match names_get POST_PARAM_NAMES key with
             | Some _ => true
             | None => false
             end)
          items).

Definition copyThreatDescriptor (postParams : loc) (showURLs dryRun : bool)
  : M post_result :=
  errorMessage ← validatePostPararmsForCopy postParams;
  match errorMessage with
  | Some m => mret (Some m, None, JNull)
  | None =>
      payload ← copy_payload postParams showURLs;
      postParams ← heap_alloc payload;
      submitThreatDescriptor postParams showURLs dryRun
  end.

(** *** Client-side time parsing *)

(** Helper for [parseTimeStringToEpochSeconds] to try epoch-seconds
    timestamps. *)
Definition _parseIntStringToEpochSeconds (mixedString : string)
  : outcome (option Z) :=
  Ret (py_int E mixedString).

Definition DATETIME_FORMATS : list string :=
  [ "%Y-%m-%dT%H:%M:%S%z";
    "%Y-%m-%d %H:%M:%S";
    "%Y/%m/%d %H:%M:%S";
    "%Y-%m-%dT%H:%M:%S";
    "%Y-%m-%dT%H:%M:%SZ" ].

(** Only [ValueError] is caught. *)
Definition _parseDateTimeStringSingleFormat (mixedString formatString : string)
  : outcome (option Z) :=
  match strptime_timestamp E mixedString formatString with
  | Ret t => Ret (Some t)
  | Raise ValueError => Ret None
  | Raise e => Raise e
  | OutOfFuel => OutOfFuel
  end.

(** [for formatString in formats: ...; return None]. *)
Fixpoint try_formats (mixedString : string) (formats : list string)
  : outcome (option Z) :=
  match formats with
  | [] => Ret None
  | formatString :: rest =>
      retval ← _parseDateTimeStringSingleFormat mixedString formatString;
      match retval with
      | Some t => Ret (Some t)
      | None => try_formats mixedString rest
      end
  end.

Definition _parseDateTimeStringToEpochSeconds (mixedString : string)
  : outcome (option Z) :=
  try_formats mixedString DATETIME_FORMATS.

Definition is_digit (a : ascii) : bool :=
  (48 <=? nat_of_ascii a)%nat && (nat_of_ascii a <=? 57)%nat.

(** The longest run of [[0-9]] at the front, and what follows it. *)
Fixpoint span_digits (s : string) : string * string :=
  match s with
  | EmptyString => (EmptyString, EmptyString)
  | String a s' =>
      if is_digit a
      then let (ds, rest) := span_digits s' in (String a ds, rest)
      else (EmptyString, s)
  end.

Fixpoint strip_prefix (p s : string) : option string :=
  match p, s with
  | EmptyString, _ => Some s
  | String a p', String b s' =>
      if Ascii.eqb a b then strip_prefix p' s' else None
  | String _ _, EmptyString => None
  end.

(** [$] of Python's [re]: the end of the string, or just before a
    newline that is the last character. *)
Definition at_dollar (s : string) : bool :=
  String.eqb s EmptyString || String.eqb s newline.

(** [re.compile("^-([0-9]+)" + unit + "s?$").match(s)]: group 1 of the
    match, if any.  The character after the digits is a letter, so the
    digits of a match are the longest run; [s?] takes an [s] when there is
    one, and giving it back never helps. *)
Definition match_relative (unit s : string) : option string :=
  match s with
  | String "-"%char rest =>
      let (digits, rest) := span_digits rest in
      match digits with
      | EmptyString => None
      | _ =>
          match strip_prefix unit rest with
          | Some rest =>
              let rest :=
                match strip_prefix "s" rest with
                | Some rest' => rest'
                | None => rest
                end in
              if at_dollar rest then Some digits else None
          | None => None
          end
      end
  | _ => None
  end.

(** The shared body of the four relative helpers; [seconds] is the
    length of the unit passed to [datetime.timedelta]. *)
Definition parse_relative (unit : string) (seconds : Z) (mixedString : string)
  : outcome (option Z) :=
  match match_relative unit mixedString with
  | Some digits =>
      match py_int E digits with
      | Some count => t ← now_minus E (count * seconds); Ret (Some t)
      | None => Raise ValueError
      end
  | None => Ret None
  end.

Definition _parseRelativeStringMinute : string -> outcome (option Z) :=
  parse_relative "minute" 60.
Definition _parseRelativeStringHour : string -> outcome (option Z) :=
  parse_relative "hour" 3600.
Definition _parseRelativeStringDay : string -> outcome (option Z) :=
  parse_relative "day" 86400.
Definition _parseRelativeStringWeek : string -> outcome (option Z) :=
  parse_relative "week" 604800.

(** Helper for [parseTimeStringToEpochSeconds] to try various
    relative-time indications. *)
Definition _parseRelativeStringToEpochSeconds (mixedString : string)
  : outcome (option Z) :=
  retval ← _parseRelativeStringMinute mixedString;
  match retval with
  | Some t => Ret (Some t)
  | None =>
      retval ← _parseRelativeStringHour mixedString;
      match retval with
      | Some t => Ret (Some t)
      | None =>
          retval ← _parseRelativeStringDay mixedString;
          match retval with
          | Some t => Ret (Some t)
          | None =>
              retval ← _parseRelativeStringWeek mixedString;
              match retval with
              | Some t => Ret (Some t)
              | None => Ret None
              end
          end
      end
  end.

Definition parseTimeStringToEpochSeconds (mixedString : string)
  : outcome (option Z) :=
  retval ← _parseIntStringToEpochSeconds mixedString;
  match retval with
  | Some t => Ret (Some t)
  | None =>
      retval ← _parseDateTimeStringToEpochSeconds mixedString;
      match retval with
      | Some t => Ret (Some t)
      | None =>
          retval ← _parseRelativeStringToEpochSeconds mixedString;
          match retval with
          | Some t => Ret (Some t)
          | None => Ret None
          end
      end
  end.

End Net.

(** ** Configuration

    The two class attributes that are set once, before use: setting one
    gives the environment that the later calls run in. *)




(** ** A concrete environment

    Used to run the client on concrete inputs: the token is set, the
    server answers the [n]-th request of the run with the [n]-th entry of
    a script, [int] reads an optional minus sign and ASCII digits, no
    datetime format matches, and the clock stands at 1600000000. *)
Module Fixture.

Fixpoint digits_value (s : string) (acc : Z) : option Z :=
  match s with
  | EmptyString => Some acc
  | String a s' =>
      if is_digit a
      then digits_value s' (10 * acc + Z.of_nat (nat_of_ascii a - 48))
      else None
  end.

Definition int_of_string (s : string) : option Z :=
  match s with
  | EmptyString => None
  | String "-"%char (String _ _ as r) => Z.opp <$> digits_value r 0
  | String "-"%char EmptyString => None
  | _ => digits_value s 0
  end.

Definition str_of (v : json) : string :=
  match v with
  | JStr s => s
  | JNum n => NilZero.string_of_int (Z.to_int n)
  | JArr [] => "[]"
  | _ => EmptyString
  end.

Definition scripted (script : list http_outcome) (n : nat) (_ : request)
  : http_outcome :=
  nth n script ConnectionFailure.

Definition env (script : list http_outcome) : Env := {|
  TE_BASE_URL := DEFAULT_TE_BASE_URL;
  APP_TOKEN := Some "TOKEN";
  server := scripted script;
  quote := fun s => s;
  py_str := str_of;
  urlencode := fun _ => EmptyString;
  py_int := int_of_string;
  strptime_timestamp := fun _ _ => Raise ValueError;
  now_minus := fun n => Ret (1600000000 - n)
|}.

Definition empty_world : world := World [] [] [].

(** A world in which one dict is held by reference, at location 0. *)
Definition world_with (d : dict) : world := World [] [] [d].

(** The copy scenario: the source descriptor that the server returns
    for id 123, and the caller's post parameters. *)
Definition source_reply : json :=
  JObj [ ("123",
          JObj [ ("raw_indicator", JStr "abc");
                 ("reactions", JObj [("1234567", JArr [JStr "HELPFUL"])]);
                 ("tags", JNull) ]) ].

Definition copy_params : dict :=
  [ ("descriptor_id", JStr "123");
    ("description", JStr "d");
    ("privacy_type", JStr "HAS_WHITELIST");
    ("privacy_members", JStr "1064060413755420") ].

(** Post parameters that pass the submit validation. *)
Definition submit_params : dict :=
  [ ("indicator", JStr "abc");
    ("type", JStr "HASH_MD5");
    ("description", JStr "d");
    ("share_level", JStr "AMBER");
    ("status", JStr "MALICIOUS");
    ("privacy_type", JStr "VISIBLE") ].

(** Two pages of tagged objects, the first linked to the second. *)
Definition page_one : json :=
  JObj [ ("data",
          JArr [ JObj [("id", JStr "1"); ("type", JStr "THREAT_DESCRIPTOR");
                       ("name", JStr "a")];
                 JObj [("id", JStr "2"); ("type", JStr "MALWARE_ANALYSES");
                       ("name", JStr "b")];
                 JObj [("id", JStr "3"); ("type", JStr "THREAT_DESCRIPTOR");
                       ("name", JStr "c")] ]);
         ("paging", JObj [("next", JStr "https://next.example/page2")]) ].

Definition page_two : json :=
  JObj [ ("data",
          JArr [ JObj [("id", JStr "4"); ("type", JStr "THREAT_DESCRIPTOR");
                       ("name", JStr "d")] ]);
         ("paging", JObj [("cursors", JObj [])]) ].

(** A descriptor as the server sends it, tags in their wrapper. *)
Definition tagged_descriptor : dict :=
  [ ("raw_indicator", JStr "abc");
    ("name", JStr "abc");
    ("tags",
     JObj [ ("data",
             JArr [ JObj [("id", JStr "9"); ("text", JStr "pwny")];
                    JObj [("id", JStr "8"); ("text", JStr "media_type_video")];
                    JObj [("id", JStr "7"); ("text", JStr "pdq")] ]) ]) ].

End Fixture.

(** ** Vocabulary of the statements *)

Definition add_requests (w : world) (rs : list request) : world :=
  World (requests w ++ rs) (callbacks w) (heap w).

Definition get_request (u : string) : request := Request GET u None.

(** A reply with a status in [500,600). *)
Definition server_error (o : http_outcome) : bool :=
  match o with
  | HttpFailure c _ => (500 <=? c) && (c <? 600)
  | _ => false
  end.

(** How a read ends on the reply that is not retried. *)
Definition fetch_result (o : http_outcome) : outcome json :=
  match o with
  | HttpResponse (Some j) => Ret j
  | HttpResponse None => Raise ValueError
  | HttpFailure c b => Raise (HTTPError c b)
  | ConnectionFailure => Raise URLError
  end.

(** The reply to attempt [k+1] ends the read: it is no server error, or
    it is the fifth attempt. *)
Definition ends_fetch (k : nat) (o : http_outcome) : bool :=
  negb (server_error o) || (k =? 4)%nat.

(** A field of a JSON object. *)
Definition field (v : json) (k : string) : option json :=
  match v with JObj d => Dict.lookup k d | _ => None end.

Definition has_field (v : json) (k : string) : bool :=
  match field v k with Some _ => true | None => false end.

(** An item of a tagged-objects page in the documented format. *)
Definition well_formed_item (item : json) : bool :=
  has_field item "id" && has_field item "type" && has_field item "name".

Definition is_descriptor (item : json) : bool :=
  match field item "type" with
  | Some t => json_is_str THREAT_DESCRIPTOR t
  | None => false
  end.

Definition item_id (item : json) : json :=
  match field item "id" with Some v => v | None => JNull end.

(** The ids of the items whose type is THREAT_DESCRIPTOR, in order. *)
Definition descriptor_ids (items : list json) : list json :=
  map item_id (List.filter is_descriptor items).

Definition page_items (response : json) : list json :=
  match field response "data" with Some (JArr items) => items | _ => [] end.

Definition page_next (response : json) : option json :=
  match field response "paging" with
  | Some paging => field paging "next"
  | None => None
  end.

(** A page in the documented format: an object with a list [data] of
    well-formed items, and [paging], when there, an object. *)
Definition well_formed_page (response : json) : bool :=
  match field response "data" with
  | Some (JArr items) => forallb well_formed_item items
  | _ => false
  end &&
  match field response "paging" with
  | None | Some (JObj _) => true
  | _ => false
  end.

(** Every page but the last has a URL in [paging.next]; the last has no
    [paging.next]. *)
Fixpoint linked_pages (pages : list json) : bool :=
  match pages with
  | [] => false
  | r :: rest =>
      well_formed_page r &&
      match rest, page_next r with
      | [], None => true
      | _ :: _, Some (JStr _) => linked_pages rest
      | _, _ => false
      end
  end.

(** The URL that each page answers: the start URL, then the links. *)
Fixpoint page_urls (start : string) (pages : list json) : list string :=
  match pages with
  | [] => []
  | r :: rest =>
      start ::
      match page_next r with
      | Some (JStr u) => page_urls u rest
      | _ => []
      end
  end.

(** From its [n]-th request on, the server answers the GET of each URL
    with the page at the same position. *)
Fixpoint serves (E : Env) (n : nat) (urls : list string) (pages : list json)
  : Prop :=
  match urls, pages with
  | u :: urls', r :: pages' =>
      server E n (get_request u) = HttpResponse (Some r)
      /\ serves E (S n) urls' pages'
  | _, _ => True
  end.

(** The text of one wrapped tag. *)
Definition text_of (tag : json) : option string :=
  match field tag "text" with Some (JStr s) => Some s | _ => None end.

Fixpoint texts_of (tags : list json) : option (list string) :=
  match tags with
  | [] => Some []
  | tag :: rest =>
      match text_of tag, texts_of rest with
      | Some s, Some ss => Some (s :: ss)
      | _, _ => None
      end
  end.

(** The tag texts of a raw descriptor, in the order of the server: none
    when [tags] is null or absent, else the texts under [tags.data]. *)
Definition tag_texts (d : dict) : option (list string) :=
  match Dict.lookup "tags" d with
  | None | Some JNull => Some []
  | Some tags =>
      match field tags "data" with
      | Some (JArr items) => texts_of items
      | _ => None
      end
  end.

(** Python's default ordering of strings. *)
Definition string_le (a b : string) : Prop := String.leb a b = true.

(** A field that is there with a value other than [None]. *)
Definition present (d : dict) (k : string) : bool :=
  negb (is_none (Dict.get d k)).

(** The fields a submission needs, in the order of the message. *)
Definition submit_required : list string :=
  [ "indicator"; "type"; "description"; "share_level"; "status";
    "privacy_type" ].

Definition missing_fields (d : dict) : list string :=
  List.filter (fun f => negb (present d f)) submit_required.

(** [msg] names [f]. *)
Definition mentions (msg f : string) : Prop :=
  exists pre post, msg = pre ++ f ++ post.

Definition passes_copy_validation (d : dict) : bool :=
  present d "descriptor_id" && present d "privacy_type"
  && present d "privacy_members".

(** The server sent the JSON value [null] as the body. *)
Definition null_reply (o : http_outcome) : bool :=
  match o with
  | HttpResponse (Some JNull) | HttpFailure _ (Some JNull) => true
  | _ => false
  end.

(** The sentence of the specification about a null response body, for
    [submitThreatDescriptor]. *)
Definition null_body_only_if_invalid_or_dry_run : Prop :=
  forall (E : Env) (p : loc) (showURLs dryRun : bool) (w w' : world)
         (e : option string) (t : option exn) (body : json),
    submitThreatDescriptor E p showURLs dryRun w = (Ret (e, t, body), w') ->
    body = JNull ->
    (exists m, validatePostPararmsForSubmit p w = (Ret (Some m), w))
    \/ dryRun = true.

Fixpoint all_digits (s : string) : bool :=
  match s with
  | EmptyString => true
  | String a s' => is_digit a && all_digits s'
  end.

Definition time_units : list string := [ "minute"; "hour"; "day"; "week" ].

(** A literal minus sign, one or more decimal digits, and a singular or
    plural unit word, with no other characters. *)
Definition relative_form (s : string) : Prop :=
  exists digits unit plural,
    s = "-" ++ digits ++ unit ++ plural
    /\ digits <> EmptyString /\ all_digits digits = true
    /\ In unit time_units
    /\ (plural = EmptyString \/ plural = "s").

(** The same, or the same followed by one newline. *)
Definition relative_form_or_newline (s : string) : Prop :=
  relative_form s \/ exists s', s = s' ++ newline /\ relative_form s'.

(** [strptime] rejects the string under each of the five formats. *)
Definition no_datetime_format (E : Env) (s : string) : Prop :=
  forall fmt, In fmt DATETIME_FORMATS ->
              strptime_timestamp E s fmt = Raise ValueError.

(** The sentence of the specification about strings in none of the three
    forms. *)
Definition unmatched_is_unresolved : Prop :=
  forall (E : Env) (s : string),
    py_int E s = None -> no_datetime_format E s -> ~ relative_form s ->
    parseTimeStringToEpochSeconds E s = Ret None.

Fixpoint last_char (s : string) : option ascii :=
  match s with
  | EmptyString => None
  | String a EmptyString => Some a
  | String _ s' => last_char s'
  end.

(** A computation that leaves the world as it found it. *)
Definition read_only {A : Type} (m : M A) : Prop :=
  forall w, snd (m w) = w.

(** A computation that keeps what the heap holds at [p]. *)
Definition keeps {A : Type} (p : loc) (d : dict) (m : M A) : Prop :=
  forall w, heap w !! p = Some d -> heap (snd (m w)) !! p = Some d.

(** What a posting method [post] with validator [validate] returns in
    the world [w]: the validation error alone and no request when the
    validation fails; a null body only then, or when the server sent
    null; the empty string as body on a dry run that passes the
    validation. *)
Definition post_shape (E : Env) (validate : M (option string))
  (post : M post_result) (dryRun : bool) (w : world) : Prop :=
  (forall m, validate w = (Ret (Some m), w) ->
             post w = (Ret (Some m, None, JNull), w))
  /\ (forall e t body w',
        post w = (Ret (e, t, body), w') -> body = JNull ->
        (validate w = (Ret e, w) /\ e <> None /\ t = None /\ w' = w)
        \/ (dryRun = false
            /\ exists req, w' = add_requests w [req]
                 /\ null_reply (server E (length (requests w)) req) = true))
  /\ (dryRun = true ->
      forall e t body w',
        post w = (Ret (e, t, body), w') -> validate w = (Ret None, w) ->
        body = JStr EmptyString /\ w' = w).

(** What the posting code past the validation returns. *)
Definition posts (E : Env) (dryRun : bool) (m : M post_result) : Prop :=
  forall w e t body w',
    m w = (Ret (e, t, body), w') ->
    (body = JNull ->
     dryRun = false
     /\ exists req, w' = add_requests w [req]
          /\ null_reply (server E (length (requests w)) req) = true)
    /\ (dryRun = true -> body = JStr EmptyString /\ w' = w).

(** A descriptor that went through the loop body of [getInfoForIDs] has
    a list under [tags]. *)
Definition has_tag_list (v : json) : Prop :=
  exists d l, v = JObj d /\ Dict.lookup "tags" d = Some (JArr l).

(** ** Vocabulary of the further statements *)

(** A tag of the lookup reply whose text is exactly [name]. *)
Definition tag_named (name : string) (item : json) : bool :=
  match field item "text" with
  | Some t => json_is_str name t
  | None => false
  end.

(** The URL of the tag lookup. *)
Definition threat_tags_url (E : Env) (token tagName : string) : string :=
  TE_BASE_URL E ++ "/threat_tags/?access_token=" ++ token ++ "&text="
  ++ quote E tagName.



(** An id that passes the check of [getInfoForIDs]: a string that [int]
    accepts. *)
Definition accepted_id (E : Env) (v : json) : bool :=
  match v with
  | JStr t => match py_int E t with Some _ => true | None => false end
  | _ => false
  end.

(** A descriptor as [getInfoForIDs] returns it. *)
Definition normalized (incl : bool) (v : json) : Prop :=
  exists d l,
    v = JObj d
    /\ Dict.lookup "tags" d = Some (JArr l)
    /\ is_none (Dict.get d "description") = false
    /\ (incl = false -> Dict.lookup "raw_indicator" d = None).

(** A recognized post-parameter name. *)
Definition recognized (k : string) : bool :=
  match names_get POST_PARAM_NAMES k with Some _ => true | None => false end.

(** Every page is in the documented format and links to a next page. *)
Fixpoint chained_pages (pages : list json) : bool :=
  match pages with
  | [] => true
  | r :: rest =>
      well_formed_page r &&
      match page_next r with
      | Some (JStr _) => chained_pages rest
      | _ => false
      end
  end.

(** The link of the last page of a chain that starts at [start]. *)
Fixpoint last_link (start : string) (pages : list json) : string :=
  match pages with
  | [] => start
  | r :: rest =>
      match page_next r with
      | Some (JStr u) => last_link u rest
      | _ => start
      end
  end.

(** The units of the relative forms and their lengths in seconds. *)
Definition unit_seconds : list (string * Z) :=
  [ ("minute", 60); ("hour", 3600); ("day", 86400); ("week", 604800) ].

(** [out] is the raw power-search descriptor [raw] after the loop body:
    the tags are the sorted texts, the description is not null, the
    name is gone when the indicator is stripped, and every other field
    is as it was. *)
Definition normalizes (incl : bool) (raw out : json) : Prop :=
  exists d d' texts sorted,
    raw = JObj d /\ out = JObj d'
    /\ tag_texts d = Some texts
    /\ Dict.lookup "tags" d' = Some (JArr (map JStr sorted))
    /\ Sorted string_le sorted /\ Permutation texts sorted
    /\ is_none (Dict.get d' "description") = false
    /\ (if incl then Dict.lookup "name" d' = Dict.lookup "name" d
        else Dict.lookup "name" d' = None)
    /\ (forall k, k <> "tags" -> k <> "description" -> k <> "name" ->
                  Dict.lookup k d' = Dict.lookup k d).

(** A power-search item that the loop body accepts. *)
Definition well_formed_descriptor (incl : bool) (item : json) : bool :=
  match item with
  | JObj d =>
      match tag_texts d with Some _ => true | None => false end
      && (incl || Dict.mem "name" d)
  | _ => false
  end.

(** A power-search page: a list [data] of such items, and [paging], when
    there, an object. *)
Definition well_formed_search_page (incl : bool) (response : json) : bool :=
  match field response "data" with
  | Some (JArr items) => forallb (well_formed_descriptor incl) items
  | _ => false
  end &&
  match field response "paging" with
  | None | Some (JObj _) => true
  | _ => false
  end.

Fixpoint linked_search_pages (incl : bool) (pages : list json) : bool :=
  match pages with
  | [] => false
  | r :: rest =>
      well_formed_search_page incl r &&
      match rest, page_next r with
      | [], None => true
      | _ :: _, Some (JStr _) => linked_search_pages incl rest
      | _, _ => false
      end
  end.

(** [out] is the raw descriptor [raw] of a [getInfoForIDs] reply after
    the loop body: as [normalizes], with [raw_indicator] in the place of
    [name]. *)
Definition info_normalizes (incl : bool) (raw out : json) : Prop :=
  exists d d' texts sorted,
    raw = JObj d /\ out = JObj d'
    /\ tag_texts d = Some texts
    /\ Dict.lookup "tags" d' = Some (JArr (map JStr sorted))
    /\ Sorted string_le sorted /\ Permutation texts sorted
    /\ is_none (Dict.get d' "description") = false
    /\ (if incl
        then Dict.lookup "raw_indicator" d' = Dict.lookup "raw_indicator" d
        else Dict.lookup "raw_indicator" d' = None)
    /\ (forall k, k <> "tags" -> k <> "description" -> k <> "raw_indicator" ->
                  Dict.lookup k d' = Dict.lookup k d).

(** A descriptor of a reply that the loop body of [getInfoForIDs]
    accepts. *)
Definition well_formed_info (incl : bool) (item : json) : bool :=
  match item with
  | JObj d =>
      match tag_texts d with Some _ => true | None => false end
      && (incl || Dict.mem "raw_indicator" d)
  | _ => false
  end.

(** The text of an id that is a string. *)
Definition id_text (v : json) : string :=
  match v with JStr s => s | _ => EmptyString end.

(** The URL of the descriptor lookup. *)
Definition descriptors_url (E : Env) (token : string) (ids : list json)
  : string :=
  TE_BASE_URL E ++ "/?access_token=" ++ token ++ "&ids="
  ++ String.concat "," (map id_text ids) ++ descriptor_fields.

(** ** Dictionaries *)

Module DictFacts.

Lemma lookup_set_eq k v d : Dict.lookup k (Dict.set k v d) = Some v.
Proof.
  induction d as [|[k' v'] d IH]; simpl.
  - now rewrite String.eqb_refl.
  - destruct (String.eqb k k') eqn:Hk; simpl; now rewrite Hk.
Qed.

Lemma lookup_set_ne k k' v d :
  k <> k' -> Dict.lookup k' (Dict.set k v d) = Dict.lookup k' d.
Proof.
  intros Hne. induction d as [|[k0 v0] d IH]; simpl.
  - destruct (String.eqb_spec k' k); congruence.
  - destruct (String.eqb_spec k k0) as [->|Hk]; simpl.
    + destruct (String.eqb_spec k' k0); congruence.
    + now rewrite IH.
Qed.

Lemma lookup_remove_eq k d : Dict.lookup k (Dict.remove k d) = None.
Proof.
  induction d as [|[k' v'] d IH]; simpl; [easy|].
  destruct (String.eqb k k') eqn:Hk; simpl; [easy|]. now rewrite Hk.
Qed.

Lemma lookup_remove_ne k k' d :
  k <> k' -> Dict.lookup k' (Dict.remove k d) = Dict.lookup k' d.
Proof.
  intros Hne. induction d as [|[k0 v0] d IH]; simpl; [easy|].
  destruct (String.eqb_spec k k0) as [->|Hk]; simpl.
  - rewrite IH. destruct (String.eqb_spec k' k0); congruence.
  - now rewrite IH.
Qed.

Lemma get_set_eq k v d : Dict.get (Dict.set k v d) k = v.
Proof. unfold Dict.get. now rewrite lookup_set_eq. Qed.

Lemma get_set_ne k k' v d :
  k <> k' -> Dict.get (Dict.set k v d) k' = Dict.get d k'.
Proof. intros H. unfold Dict.get. now rewrite lookup_set_ne. Qed.

Lemma mem_lookup k d :
  Dict.mem k d = true <-> exists v, Dict.lookup k d = Some v.
Proof.
  unfold Dict.mem. destruct (Dict.lookup k d); split; eauto; try easy.
  intros [v Hv]. discriminate.
Qed.

End DictFacts.

(** ** Normalization of the description *)

(** C9.  The description of a normalized record is the empty string when
    the description of the record is null or absent and is the record's
    own description otherwise, and normalizing a second time changes
    nothing. *)
Theorem normalize_description_idempotent (d : dict) :
  Dict.get (normalize_description d) "description"
  = (if is_none (Dict.get d "description") then JStr EmptyString
     else Dict.get d "description")
  /\ is_none (Dict.get (normalize_description d) "description") = false
  /\ normalize_description (normalize_description d) = normalize_description d.
Proof.
  assert (Hget : Dict.get (normalize_description d) "description"
                 = (if is_none (Dict.get d "description") then JStr EmptyString
                    else Dict.get d "description")).
  { unfold normalize_description.
    destruct (is_none (Dict.get d "description")) eqn:Hn; [|easy].
    apply DictFacts.get_set_eq. }
  assert (Hnn : is_none (Dict.get (normalize_description d) "description")
                = false).
  { rewrite Hget. now destruct (is_none (Dict.get d "description")) eqn:Hn. }
  repeat split; try assumption.
  unfold normalize_description at 1. now rewrite Hnn.
Qed.

(** ** Normalization of the tags *)

Section Sorting.

Lemma ltb_leb a b : String.ltb a b = true -> string_le a b.
Proof.
  unfold String.ltb, string_le, String.leb.
  now destruct (String.compare a b).
Qed.

Lemma not_ltb_leb a b : String.ltb b a = false -> string_le a b.
Proof.
  unfold String.ltb, string_le, String.leb.
  rewrite (String.compare_antisym b a).
  now destruct (String.compare a b).
Qed.

(** Inserting a string into a sorted list of strings. *)
Lemma sorted_insert_strings x l :
  Sorted string_le l ->
  exists l',
    sorted_insert (JStr x) (map JStr l) = Ret (map JStr l')
    /\ Sorted string_le l'
    /\ Permutation (x :: l) l'
    /\ (forall y, string_le y x -> HdRel string_le y l -> HdRel string_le y l').
Proof.
  induction l as [|y l IH]; intros Hs.
  - exists [x]. repeat split; auto.
  - inversion Hs as [|? ? Hs' Hhd]; subst.
    simpl. destruct (String.ltb y x) eqn:Hlt.
    + destruct (IH Hs') as (l' & Heq & Hsl' & Hperm & Hrel).
      exists (y :: l'). rewrite Heq. simpl. repeat split.
      * constructor; [assumption|]. apply Hrel; [now apply ltb_leb|assumption].
      * rewrite perm_swap. now constructor.
      * intros z _ Hz. inversion Hz; subst. now constructor.
    + exists (x :: y :: l). repeat split; auto.
      constructor; [assumption|]. constructor. now apply not_ltb_leb.
Qed.

(** [sorted] on a list of strings returns its sorted permutation. *)
Lemma py_sorted_strings l :
  exists l',
    py_sorted (map JStr l) = Ret (map JStr l')
    /\ Sorted string_le l' /\ Permutation l l'.
Proof.
  induction l as [|x l (l0 & Heq & Hs & Hp)].
  - exists []. repeat split; auto.
  - destruct (sorted_insert_strings x l0 Hs) as (l' & Heq' & Hs' & Hp' & _).
    exists l'. simpl. rewrite Heq. simpl. repeat split; auto.
    transitivity (x :: l0); [now constructor|assumption].
Qed.

End Sorting.

Lemma for_each_text items texts :
  texts_of items = Some texts ->
  for_each (fun tag => py_getitem tag "text") items = Ret (map JStr texts).
Proof.
  revert texts. induction items as [|tag items IH]; intros texts H; simpl in *.
  - now inversion H.
  - unfold text_of, field in H.
    destruct tag as [| | | | |td]; try discriminate.
    destruct (Dict.lookup "text" td) as [[| | |s| |]|] eqn:Ht; try discriminate.
    destruct (texts_of items) as [ss|]; [|discriminate].
    inversion H; subst. simpl. rewrite Ht. simpl.
    now rewrite (IH ss eq_refl).
Qed.

(** The tags step on a dict with well-formed tags. *)
Lemma normalize_tags_with d texts sorted :
  tag_texts d = Some texts ->
  py_sorted (map JStr texts) = Ret (map JStr sorted) ->
  normalize_tags (JObj d)
  = Ret (JObj (Dict.set "tags" (JArr (map JStr sorted)) d)).
Proof.
  unfold tag_texts, normalize_tags. intros H Hsort. simpl. unfold Dict.get.
  destruct (Dict.lookup "tags" d) as [tags|] eqn:Ht.
  - destruct tags as [| | | | |wd]; simpl in *; try discriminate.
    + inversion H; subst. simpl in Hsort. simpl.
      destruct sorted; [reflexivity|discriminate].
    + destruct (Dict.lookup "data" wd) as [[| | | |items|]|] eqn:Hd;
        try discriminate.
      simpl. rewrite (for_each_text _ _ H). simpl. now rewrite Hsort.
  - inversion H; subst. simpl in *.
    destruct sorted; [reflexivity|discriminate].
Qed.

Lemma tag_texts_remove k d :
  k <> "tags" -> tag_texts (Dict.remove k d) = tag_texts d.
Proof.
  intros H. unfold tag_texts. now rewrite DictFacts.lookup_remove_ne.
Qed.

Lemma lookup_tags_normalize_description d :
  Dict.lookup "tags" (normalize_description d) = Dict.lookup "tags" d.
Proof.
  unfold normalize_description.
  destruct (is_none (Dict.get d "description")); [|easy].
  now apply DictFacts.lookup_set_ne.
Qed.

(** The two steps that both loop bodies share. *)
Lemma normalize_steps d texts sorted :
  tag_texts d = Some texts ->
  py_sorted (map JStr texts) = Ret (map JStr sorted) ->
  exists d',
    (descriptor ← normalize_tags (JObj d); normalize_description_of descriptor)
    = Ret (JObj d')
    /\ Dict.lookup "tags" d' = Some (JArr (map JStr sorted)).
Proof.
  intros H Hsort. eexists. rewrite (normalize_tags_with d texts sorted H Hsort).
  simpl. split; [reflexivity|].
  now rewrite lookup_tags_normalize_description, DictFacts.lookup_set_eq.
Qed.

(** C7.  For a raw descriptor whose tags are null, absent, or a wrapper of
    tags with string texts, the loop bodies of [getInfoForIDs] and
    [doPowerSearch] both return a record whose [tags] field is the list
    of the tag texts sorted ascending in Python's string order, and the
    empty list when the raw tags are null or absent.  (When the indicator
    is to be stripped, the key that is deleted has to be there.) *)
Theorem normalized_tags_sorted (incl : bool) (d : dict) (texts : list string) :
  tag_texts d = Some texts ->
  (incl = false ->
   Dict.mem "raw_indicator" d = true /\ Dict.mem "name" d = true) ->
  exists sorted d1 d2,
    Sorted string_le sorted /\ Permutation texts sorted
    /\ getInfoForIDs_item incl (JObj d) = Ret (JObj d1)
    /\ Dict.lookup "tags" d1 = Some (JArr (map JStr sorted))
    /\ doPowerSearch_item incl (JObj d) = Ret (JObj d2)
    /\ Dict.lookup "tags" d2 = Some (JArr (map JStr sorted))
    /\ (is_none (Dict.get d "tags") = true -> sorted = []).
Proof.
  intros Ht Hkeys.
  destruct (py_sorted_strings texts) as (sorted & Hsort & Hs & Hp).
  assert (Hnull : is_none (Dict.get d "tags") = true -> sorted = []).
  { intros Hn. unfold tag_texts in Ht. unfold Dict.get in Hn.
    destruct (Dict.lookup "tags" d) as [[| | | | |]|]; try discriminate;
      inversion Ht; subst; now apply Permutation_nil. }
  exists sorted. unfold getInfoForIDs_item, doPowerSearch_item.
  destruct incl; simpl.
  - destruct (normalize_steps d texts sorted Ht Hsort) as (d' & Heq & Hl).
    exists d', d'. repeat split; auto.
  - destruct (Hkeys eq_refl) as [Hraw Hname]. rewrite Hraw, Hname. simpl.
    assert (H1 : tag_texts (Dict.remove "raw_indicator" d) = Some texts)
      by (now rewrite tag_texts_remove).
    assert (H2 : tag_texts (Dict.remove "name" d) = Some texts)
      by (now rewrite tag_texts_remove).
    destruct (normalize_steps _ _ _ H1 Hsort) as (d1 & Heq1 & Hl1).
    destruct (normalize_steps _ _ _ H2 Hsort) as (d2 & Heq2 & Hl2).
    exists d1, d2. repeat split; auto.
Qed.

Lemma normalized_tags_sorted_witness :
  exists sorted d1 d2,
    Sorted string_le sorted
    /\ Permutation ["pwny"; "media_type_video"; "pdq"] sorted
    /\ getInfoForIDs_item false (JObj Fixture.tagged_descriptor)
       = Ret (JObj d1)
    /\ Dict.lookup "tags" d1 = Some (JArr (map JStr sorted))
    /\ doPowerSearch_item false (JObj Fixture.tagged_descriptor)
       = Ret (JObj d2)
    /\ Dict.lookup "tags" d2 = Some (JArr (map JStr sorted))
    /\ (is_none (Dict.get Fixture.tagged_descriptor "tags") = true
        -> sorted = []).
Proof.
  apply (normalized_tags_sorted false Fixture.tagged_descriptor
           ["pwny"; "media_type_video"; "pdq"]).
  - reflexivity.
  - intros _. split; reflexivity.
Defined.

Example getInfoForIDs_item_tags :
  getInfoForIDs_item true (JObj Fixture.tagged_descriptor)
  = Ret (JObj [ ("raw_indicator", JStr "abc");
                ("name", JStr "abc");
                ("tags", JArr [JStr "media_type_video"; JStr "pdq";
                               JStr "pwny"]);
                ("description", JStr EmptyString) ]).
Proof. reflexivity. Qed.

(** ** The fetcher *)

Lemma add_requests_nil w : add_requests w [] = w.
Proof. destruct w. unfold add_requests. simpl. now rewrite app_nil_r. Qed.

Lemma add_requests_app w rs rs' :
  add_requests (add_requests w rs) rs' = add_requests w (rs ++ rs').
Proof. unfold add_requests. simpl. now rewrite app_assoc. Qed.

Lemma requests_add_length w rs :
  length (requests (add_requests w rs)) = (length (requests w) + length rs)%nat.
Proof. unfold add_requests. simpl. now rewrite length_app. Qed.

Lemma server_error_inv o :
  server_error o = true ->
  exists c b, o = HttpFailure c b /\ (c <? 500) || (c >=? 600) = false.
Proof.
  destruct o as [|c b|]; simpl; try discriminate. intros H.
  exists c, b. split; [reflexivity|]. lia.
Qed.

Section Fetch.

Context (E : Env) (u : string).

(** One round of the loop on a reply that is retried. *)
Lemma loop_retry fuel t w :
  server_error (server E (length (requests w)) (get_request u)) = true ->
  t + 1 <= 4 ->
  getJSONFromURL_loop E (S fuel) t (JStr u) w
  = getJSONFromURL_loop E fuel (t + 1) (JStr u)
      (add_requests w [get_request u]).
Proof.
  intros Herr Ht. apply server_error_inv in Herr as (c & b & Ho & Hc).
  cbn [getJSONFromURL_loop]. unfold mbind at 1, M_bind, tryGET.
  unfold mbind at 1, M_bind, urlopen. fold (get_request u). rewrite Ho.
  cbn. rewrite Hc. replace (t + 1 >? 4) with false by lia. reflexivity.
Qed.

(** One round of the loop on a reply that ends it. *)
Lemma loop_end fuel t w :
  let o := server E (length (requests w)) (get_request u) in
  server_error o = false \/ 4 < t + 1 ->
  getJSONFromURL_loop E (S fuel) t (JStr u) w
  = (fetch_result o, add_requests w [get_request u]).
Proof.
  intros o Hend. subst o.
  cbn [getJSONFromURL_loop]. unfold mbind at 1, M_bind, tryGET.
  unfold mbind at 1, M_bind, urlopen. fold (get_request u).
  destruct (server E (length (requests w)) (get_request u)) as [[j|]|c b|];
    cbn; try reflexivity.
  simpl in Hend.
  destruct ((c <? 500) || (c >=? 600)) eqn:Hc; [reflexivity|].
  replace (t + 1 >? 4) with true; [reflexivity|].
  destruct Hend as [Hend|Hend]; lia.
Qed.

(** [k] replies in a row that are retried. *)
Lemma loop_retries k : forall fuel t w,
  (forall i, (i < k)%nat ->
     server_error (server E (length (requests w) + i) (get_request u)) = true) ->
  t + Z.of_nat k <= 4 ->
  getJSONFromURL_loop E (k + fuel) t (JStr u) w
  = getJSONFromURL_loop E fuel (t + Z.of_nat k) (JStr u)
      (add_requests w (replicate k (get_request u))).
Proof.
  induction k as [|k IH]; intros fuel t w Hsrv Ht.
  - simpl. now rewrite add_requests_nil, Z.add_0_r.
  - change (S k + fuel)%nat with (S (k + fuel)).
    rewrite loop_retry; [|rewrite <- (Nat.add_0_r (length _)); apply Hsrv; lia|lia].
    rewrite IH.
    + rewrite add_requests_app. f_equal. lia.
    + intros i Hi. rewrite requests_add_length. simpl.
      replace (length (requests w) + 1 + i)%nat
        with (length (requests w) + S i)%nat by lia.
      apply Hsrv. lia.
    + lia.
Qed.

End Fetch.

(** C4.  When the first [k <= 4] replies to a read are server errors
    (status in [500,600)) and the next reply ends the read (it is a
    response, an error with a status outside [500,600), or the reply to
    the fifth attempt), the read has issued exactly [k+1] requests, all
    of them the same GET, and ends as that last reply says: five server
    errors in a row raise the fifth after five requests, and an error
    such as 404 on the first attempt is raised after one request. *)
Theorem getJSONFromURL_attempts (E : Env) (u : string) (w : world) (k : nat) :
  (k <= 4)%nat ->
  (forall i, (i < k)%nat ->
     server_error (server E (length (requests w) + i) (get_request u)) = true) ->
  ends_fetch k (server E (length (requests w) + k) (get_request u)) = true ->
  getJSONFromURL E (JStr u) w
  = (fetch_result (server E (length (requests w) + k) (get_request u)),
     add_requests w (replicate (S k) (get_request u))).
Proof.
  intros Hk Hsrv Hend. unfold getJSONFromURL.
  replace 5%nat with (k + S (4 - k))%nat by lia.
  rewrite loop_retries by (auto; lia).
  rewrite loop_end.
  - rewrite requests_add_length, length_replicate, add_requests_app.
    f_equal. f_equal. clear. induction k as [|k IH]; [reflexivity|].
    cbn [replicate]. cbn [replicate] in IH. simpl. now rewrite IH.
  - rewrite requests_add_length, length_replicate.
    unfold ends_fetch in Hend. apply orb_true_iff in Hend as [H|H].
    + left. now apply negb_true_iff.
    + right. apply Nat.eqb_eq in H. lia.
Qed.

Lemma getJSONFromURL_attempts_witness :
  getJSONFromURL
    (Fixture.env (replicate 6 (HttpFailure 503 None)))
    (JStr "https://x") Fixture.empty_world
  = (Raise (HTTPError 503 None),
     add_requests Fixture.empty_world (replicate 5 (get_request "https://x"))).
Proof.
  apply (getJSONFromURL_attempts
           (Fixture.env (replicate 6 (HttpFailure 503 None)))
           "https://x" Fixture.empty_world 4).
  - lia.
  - intros i Hi. do 4 (destruct i as [|i]; [reflexivity|]). lia.
  - reflexivity.
Defined.

Example getJSONFromURL_404 :
  getJSONFromURL
    (Fixture.env [HttpFailure 404 None; HttpResponse (Some JNull)])
    (JStr "https://x") Fixture.empty_world
  = (Raise (HTTPError 404 None),
     add_requests Fixture.empty_world [get_request "https://x"]).
Proof. reflexivity. Qed.

(** More fuel than five changes nothing: the loop never runs dry. *)
Lemma getJSONFromURL_fuel (E : Env) (url : json) (w : world) (extra : nat) :
  getJSONFromURL_loop E (5 + extra) 0 url w = getJSONFromURL E url w
  /\ fst (getJSONFromURL E url w) <> OutOfFuel.
Proof.
  unfold getJSONFromURL.
  destruct url as [| | |u| |]; try (split; [reflexivity|discriminate]).
  assert (Hdec : forall n, {server_error (server E n (get_request u)) = true}
                           + {server_error (server E n (get_request u)) = false}).
  { intros n. destruct (server_error _); auto. }
  assert (Hstep : forall fuel fuel' t w0,
    (0 <= t) ->
    (forall w1, getJSONFromURL_loop E fuel (t + 1) (JStr u) w1
                = getJSONFromURL_loop E fuel' (t + 1) (JStr u) w1
                /\ fst (getJSONFromURL_loop E fuel' (t + 1) (JStr u) w1)
                   <> OutOfFuel) ->
    getJSONFromURL_loop E (S fuel) t (JStr u) w0
    = getJSONFromURL_loop E (S fuel') t (JStr u) w0
    /\ fst (getJSONFromURL_loop E (S fuel') t (JStr u) w0) <> OutOfFuel).
  { intros fuel fuel' t w0 Ht IH.
    destruct (Hdec (length (requests w0))) as [He|He].
    - destruct (Z_le_gt_dec (t + 1) 4) as [Hle|Hgt].
      + rewrite !loop_retry by assumption. apply IH.
      + rewrite !loop_end by (right; lia). split; [reflexivity|].
        apply server_error_inv in He as (c & b & -> & _). discriminate.
    - rewrite !loop_end by (left; assumption). split; [reflexivity|].
      simpl. destruct (server E _ _) as [[|]|? ?|]; discriminate. }
  apply Hstep; [lia|]. intros w1.
  apply Hstep; [lia|]. intros w2.
  apply Hstep; [lia|]. intros w3.
  apply Hstep; [lia|]. intros w4.
  simpl (0 + 1 + 1 + 1 + 1).
  destruct (Hdec (length (requests w4))) as [He|He].
  - rewrite !loop_end by (right; lia). split; [reflexivity|].
    apply server_error_inv in He as (c & b & -> & _). discriminate.
  - rewrite !loop_end by (left; assumption). split; [reflexivity|].
    simpl. destruct (server E _ _) as [[|]|? ?|]; discriminate.
Qed.

(** ** Running monadic code *)

Lemma run_bind_ret {A B : Type} (m : M A) (f : A -> M B) w a w' :
  m w = (Ret a, w') -> (x ← m; f x) w = f a w'.
Proof. intros H. unfold mbind, M_bind. now rewrite H. Qed.

Lemma run_bind_lift {A B : Type} (o : outcome A) (f : A -> M B) w a :
  o = Ret a -> (x ← lift o; f x) w = f a w.
Proof. intros ->. reflexivity. Qed.

(** ** The paginator *)

Lemma getJSONFromURL_response (E : Env) (u : string) (w : world) (r : json) :
  server E (length (requests w)) (get_request u) = HttpResponse (Some r) ->
  getJSONFromURL E (JStr u) w = (Ret r, add_requests w [get_request u]).
Proof.
  intros H. unfold getJSONFromURL.
  rewrite loop_end; rewrite H; [reflexivity|now left].
Qed.

Lemma tagged_item_id_spec incl item :
  well_formed_item item = true ->
  tagged_item_id incl item
  = Ret (if is_descriptor item then Some (item_id item) else None).
Proof.
  unfold well_formed_item, has_field, tagged_item_id, is_descriptor, item_id,
    field.
  destruct item as [| | | | |d]; try discriminate.
  simpl. unfold Dict.mem.
  destruct (Dict.lookup "id" d) as [i|]; [|discriminate].
  destruct (Dict.lookup "type" d) as [t|]; [|discriminate].
  destruct (Dict.lookup "name" d) as [n|]; [|discriminate].
  intros _. simpl. destruct incl; simpl;
    now destruct (json_is_str THREAT_DESCRIPTOR t).
Qed.

Lemma page_ids_spec incl items :
  forallb well_formed_item items = true ->
  page_ids incl (JArr items) = Ret (descriptor_ids items).
Proof.
  intros H. unfold page_ids. simpl.
  assert (Hf : for_each (tagged_item_id incl) items
               = Ret (map (fun item => if is_descriptor item
                                       then Some (item_id item) else None)
                          items)).
  { induction items as [|item items IH]; [reflexivity|].
    simpl in H. apply andb_true_iff in H as [Hi Hr].
    simpl. rewrite (tagged_item_id_spec _ _ Hi). simpl.
    now rewrite (IH Hr). }
  rewrite Hf. simpl. f_equal. unfold descriptor_ids.
  clear. induction items as [|item items IH]; [reflexivity|].
  simpl. destruct (is_descriptor item); simpl; now rewrite IH.
Qed.

Lemma well_formed_page_inv r :
  well_formed_page r = true ->
  py_getitem r "data" = Ret (JArr (page_items r))
  /\ forallb well_formed_item (page_items r) = true
  /\ next_url r
     = Ret (match page_next r with Some v => v | None => JNull end).
Proof.
  unfold well_formed_page, page_items, page_next, next_url, field.
  destruct r as [| | | | |d]; try discriminate. simpl.
  destruct (Dict.lookup "data" d) as [[| | | |items|]|] eqn:Hd;
    try discriminate.
  simpl. unfold Dict.mem.
  destruct (Dict.lookup "paging" d) as [paging|] eqn:Hp.
  - destruct paging as [| | | | |pg]; rewrite ?andb_false_r;
      try discriminate.
    rewrite andb_true_r. intros H. repeat split; auto.
    simpl. unfold Dict.mem. now destruct (Dict.lookup "next" pg).
  - rewrite andb_true_r. intros H. repeat split; auto.
Qed.

Section Pages.

Context (E : Env) (o : tag_options).

Lemma tagged_pages_loop_pages pages : forall start fuel idx w,
  linked_pages pages = true ->
  serves E (length (requests w)) (page_urls start pages) pages ->
  (length pages <= fuel)%nat ->
  tagged_pages_loop E fuel o (JStr start) idx w
  = (Ret (),
     World (requests w ++ map get_request (page_urls start pages))
           (callbacks w
            ++ map (fun r => descriptor_ids (page_items r)) pages)
           (heap w)).
Proof.
  induction pages as [|r rest IH]; intros start fuel idx w Hl Hs Hf;
    [discriminate|].
  cbn [linked_pages] in Hl. apply andb_true_iff in Hl as [Hwf Hl].
  destruct (well_formed_page_inv r Hwf) as (Hdata & Hitems & Hnext).
  destruct fuel as [|fuel]; [simpl in Hf; lia|].
  cbn [page_urls serves] in Hs. destruct Hs as [Hsrv Hs].
  cbn [tagged_pages_loop is_none].
  rewrite (run_bind_ret _ _ _ _ _ (getJSONFromURL_response E start w r Hsrv)).
  rewrite (run_bind_lift _ _ _ _ Hdata).
  rewrite (run_bind_lift _ _ _ _ Hnext).
  rewrite (run_bind_lift _ _ _ _ (page_ids_spec _ _ Hitems)).
  unfold mbind at 1, M_bind, invoke_callback. cbn [requests callbacks heap
    add_requests page_urls map].
  destruct rest as [|r' rest'].
  - destruct (page_next r) as [v|] eqn:Hn; [discriminate|].
    cbn. destruct fuel; cbn; reflexivity.
  - destruct (page_next r) as [[| | |u'| |]|] eqn:Hn; try discriminate.
    rewrite (IH u' fuel (idx + 1)); [| assumption | | simpl in *; lia].
    + cbn [requests callbacks heap map]. f_equal. f_equal.
      * now rewrite <- app_assoc.
      * now rewrite <- app_assoc.
    + cbn [requests]. rewrite length_app. simpl.
      now replace (length (requests w) + 1)%nat with (S (length (requests w)))
        by lia.
Qed.

End Pages.

(** C5.  When the server answers the start URL and then each
    [paging.next] link with the next of the pages [pages], every page
    but the last carrying a link and the last carrying none, all in the
    documented format, [processDescriptorIDsByTagID] returns after
    invoking the callback once per page, in page order, each time with
    the ids of the page's items of type THREAT_DESCRIPTOR in the order of
    the page; with a single page that is one invocation. *)
Theorem processDescriptorIDsByTagID_pages (E : Env) (fuel : nat)
  (tagID : string) (o : tag_options) (start : string) (pages : list json)
  (w : world) :
  tagged_objects_url E tagID o = Ret start ->
  linked_pages pages = true ->
  serves E (length (requests w)) (page_urls start pages) pages ->
  (length pages <= fuel)%nat ->
  let run := processDescriptorIDsByTagID E fuel tagID o w in
  fst run = Ret ()
  /\ callbacks (snd run)
     = (callbacks w
        ++ map (fun r => descriptor_ids (page_items r)) pages)%list
  /\ length (callbacks (snd run)) = (length (callbacks w) + length pages)%nat
  /\ requests (snd run)
     = (requests w ++ map get_request (page_urls start pages))%list
  /\ (length pages = 1%nat -> length (requests (snd run))
                              = S (length (requests w))).
Proof.
  intros Hurl Hl Hs Hf run. subst run. unfold processDescriptorIDsByTagID.
  rewrite (run_bind_lift _ _ _ _ Hurl).
  rewrite (tagged_pages_loop_pages E o pages start fuel 0 w Hl Hs Hf).
  cbn [fst snd callbacks requests]. repeat split.
  - now rewrite length_app, length_map.
  - intros H1. destruct pages as [|r [|]]; try discriminate.
    cbn [linked_pages] in Hl. apply andb_true_iff in Hl as [_ Hl].
    cbn [page_urls]. destruct (page_next r); [discriminate|].
    rewrite length_app. simpl. lia.
Qed.

Lemma processDescriptorIDsByTagID_pages_witness :
  let E := Fixture.env [ HttpResponse (Some Fixture.page_one);
                         HttpResponse (Some Fixture.page_two) ] in
  let run := processDescriptorIDsByTagID E 2 "9999338387644295"
               default_tag_options Fixture.empty_world in
  fst run = Ret ()
  /\ callbacks (snd run) = [ [JStr "1"; JStr "3"]; [JStr "4"] ].
Proof.
  intros E run.
  destruct (processDescriptorIDsByTagID_pages E 2 "9999338387644295"
              default_tag_options
              "https://graph.facebook.com/v6.0/9999338387644295/tagged_objects/?access_token=TOKEN&limit=10"
              [Fixture.page_one; Fixture.page_two] Fixture.empty_world)
    as (Hret & Hcb & _).
  - reflexivity.
  - reflexivity.
  - simpl. repeat split; reflexivity.
  - simpl. lia.
  - split; [exact Hret|exact Hcb].
Defined.

(** ** The validators *)

Lemma run_heap_read p d w :
  heap w !! p = Some d -> heap_read p w = (Ret d, w).
Proof. intros H. unfold heap_read. now rewrite H. Qed.

Lemma run_dget p d k w :
  heap w !! p = Some d -> dget p k w = (Ret (Dict.get d k), w).
Proof.
  intros H. unfold dget. now rewrite (run_bind_ret _ _ _ _ _ (run_heap_read p d w H)).
Qed.

Lemma run_for_eachM_dget p d w (g : json -> string -> option string) l :
  heap w !! p = Some d ->
  for_eachM (fun f => v ← dget p f; mret (g v f)) l w
  = (Ret (map (fun f => g (Dict.get d f) f) l), w).
Proof.
  intros H. induction l as [|f l IH]; [reflexivity|].
  cbn [for_eachM map].
  rewrite (run_bind_ret _ _ w (g (Dict.get d f) f) w).
  - now rewrite (run_bind_ret _ _ _ _ _ IH).
  - now rewrite (run_bind_ret _ _ _ _ _ (run_dget p d f w H)).
Qed.

Lemma not_none_missing d l :
  not_none (map (fun f => if is_none (Dict.get d f) then Some f else None) l)
  = List.filter (fun f => negb (present d f)) l.
Proof.
  induction l as [|f l IH]; [reflexivity|].
  simpl. unfold present at 1. rewrite negb_involutive.
  destruct (is_none (Dict.get d f)); simpl; now rewrite IH.
Qed.

Lemma filter_nil_iff {A : Type} (f : A -> bool) l :
  List.filter f l = [] <-> forall x, In x l -> f x = false.
Proof.
  induction l as [|a l IH]; simpl.
  - split; [intros _ x []|reflexivity].
  - destruct (f a) eqn:Ha; split.
    + discriminate.
    + intros H. specialize (H a (or_introl eq_refl)). congruence.
    + intros H x [<-|Hx]; [assumption|]. now apply IH.
    + intros H. apply IH. intros x Hx. apply H. now right.
Qed.

Lemma filter_In_iff {A : Type} (f : A -> bool) l x :
  In x (List.filter f l) <-> In x l /\ f x = true.
Proof. apply List.filter_In. Qed.

Lemma concat_mentions sep l f :
  In f l -> mentions (String.concat sep l) f.
Proof.
  induction l as [|x l IH]; [intros []|].
  intros [->|Hin].
  - destruct l as [|y l].
    + exists EmptyString, EmptyString. simpl.
      clear. induction f; simpl; [reflexivity|now f_equal].
    + exists EmptyString, (sep ++ String.concat sep (y :: l)). reflexivity.
  - destruct l as [|y l]; [destruct Hin|].
    destruct (IH Hin) as (pre & post & Heq).
    exists (x ++ sep ++ pre), post.
    change (String.concat sep (x :: y :: l))
      with (x ++ sep ++ String.concat sep (y :: l)).
    rewrite Heq. clear.
    induction x; simpl; [|now f_equal].
    induction sep; simpl; [reflexivity|now f_equal].
Qed.

(** C2.  On a field map [d], the update validator leaves the world as it
    is and returns [None] exactly when [descriptor_id] is non-null and
    both [indicator] and [type] are null or absent; without
    [descriptor_id] (so also on the empty map) the error says that the
    descriptor id must be specified, and with [descriptor_id] a non-null
    [indicator] gives the indicator error whatever [type] is. *)
Theorem validatePostPararmsForUpdate_spec (p : loc) (d : dict) (w : world) :
  heap w !! p = Some d ->
  exists r,
    validatePostPararmsForUpdate p w = (Ret r, w)
    /\ (r = None <->
        present d "descriptor_id" = true /\ present d "indicator" = false
        /\ present d "type" = false)
    /\ (present d "descriptor_id" = false ->
        r = Some "Descriptor ID must be specified for update.")
    /\ (d = [] -> r = Some "Descriptor ID must be specified for update.")
    /\ (present d "descriptor_id" = true -> present d "indicator" = true ->
        r = Some "Indicator must not be specified for update.").
Proof.
  intros H. unfold validatePostPararmsForUpdate.
  change (pname "descriptor_id") with "descriptor_id".
  change (pname "indicator") with "indicator".
  change (pname "type") with "type".
  rewrite (run_bind_ret _ _ _ _ _ (run_dget p d _ w H)).
  assert (Hempty : d = [] -> present d "descriptor_id" = false)
    by (now intros ->).
  unfold present in *.
  destruct (is_none (Dict.get d "descriptor_id")) eqn:Hid.
  { eexists. split; [reflexivity|]. simpl. intuition congruence. }
  rewrite (run_bind_ret _ _ _ _ _ (run_dget p d _ w H)).
  destruct (is_none (Dict.get d "indicator")) eqn:Hind.
  - rewrite (run_bind_ret _ _ _ _ _ (run_dget p d _ w H)).
    eexists. split; [reflexivity|].
    destruct (is_none (Dict.get d "type")) eqn:Hty; simpl in *;
      intuition congruence.
  - eexists. split; [reflexivity|]. simpl in *. intuition congruence.
Qed.

Lemma validatePostPararmsForUpdate_spec_witness :
  exists r,
    validatePostPararmsForUpdate 0%nat (Fixture.world_with [])
    = (Ret r, Fixture.world_with [])
    /\ r = Some "Descriptor ID must be specified for update.".
Proof.
  destruct (validatePostPararmsForUpdate_spec 0%nat [] (Fixture.world_with []))
    as (r & Hrun & _ & _ & Hempty & _).
  - reflexivity.
  - exists r. split; [exact Hrun|]. now apply Hempty.
Defined.

(** C6.  On a field map [d], the submit validator leaves the world as it
    is; with a non-null [descriptor_id] it returns the error that
    descriptor_id must not be specified; otherwise it returns one message
    that lists, in the fixed order of the six required fields, every one
    of them that is null or absent; and it returns [None] exactly when
    [descriptor_id] is null or absent and all six are non-null. *)
Theorem validatePostPararmsForSubmit_spec (p : loc) (d : dict) (w : world) :
  heap w !! p = Some d ->
  exists r,
    validatePostPararmsForSubmit p w = (Ret r, w)
    /\ (present d "descriptor_id" = true ->
        r = Some "descriptor_id must not be specified for submit."
        /\ mentions "descriptor_id must not be specified for submit."
             "descriptor_id")
    /\ (present d "descriptor_id" = false ->
        r = match missing_fields d with
            | [] => None
            | [f] => Some ("Missing field " ++ f)
            | fs => Some ("Missing fields " ++ String.concat "," fs)
            end)
    /\ (present d "descriptor_id" = false ->
        forall f, In f submit_required -> present d f = false ->
                  exists msg, r = Some msg /\ mentions msg f)
    /\ (r = None <->
        present d "descriptor_id" = false
        /\ forall f, In f submit_required -> present d f = true).
Proof.
  intros H. unfold validatePostPararmsForSubmit.
  change (pname "descriptor_id") with "descriptor_id".
  change requiredFields with submit_required.
  rewrite (run_bind_ret _ _ _ _ _ (run_dget p d _ w H)).
  fold (present d "descriptor_id").
  destruct (present d "descriptor_id") eqn:Hid.
  { eexists. split; [reflexivity|].
    split; [|split; [|split]]; try (intros; discriminate).
    - intros _. split; [reflexivity|].
      exists EmptyString, " must not be specified for submit.". reflexivity.
    - split; [discriminate|]. now intros (? & _). }
  rewrite (run_bind_ret _ _ _ _ _
             (run_for_eachM_dget p d w
                (fun v f => if is_none v then Some f else None) _ H)).
  rewrite not_none_missing. fold (missing_fields d).
  assert (Hnil : missing_fields d = [] <->
                 forall f, In f submit_required -> present d f = true).
  { unfold missing_fields. rewrite filter_nil_iff. split; intros Hf f Hin.
    - specialize (Hf f Hin). now apply negb_false_iff.
    - rewrite (Hf f Hin). reflexivity. }
  assert (Hin : forall f, In f submit_required -> present d f = false ->
                          In f (missing_fields d)).
  { intros f Hf Hp. apply filter_In_iff. split; [assumption|]. now rewrite Hp. }
  destruct (missing_fields d) as [|f1 [|f2 fs]] eqn:Hm.
  - eexists. split; [reflexivity|].
    split; [|split; [|split]]; try (intros; discriminate).
    + reflexivity.
    + intros _ f Hf Hp. destruct (Hin f Hf Hp).
    + split; [|reflexivity]. intros _. split; [reflexivity|]. now apply Hnil.
  - eexists. split; [reflexivity|].
    split; [|split; [|split]]; try (intros; discriminate).
    + reflexivity.
    + intros _ f Hf Hp. destruct (Hin f Hf Hp) as [<-|[]].
      eexists. split; [reflexivity|].
      exists "Missing field ", EmptyString.
      clear. simpl. do 14 f_equal.
      induction f1; simpl; [reflexivity|now f_equal].
    + split; [discriminate|].
      intros (_ & Hall). apply Hnil in Hall. discriminate.
  - eexists. split; [reflexivity|].
    split; [|split; [|split]]; try (intros; discriminate).
    + reflexivity.
    + intros _ f Hf Hp. eexists. split; [reflexivity|].
      destruct (concat_mentions "," (f1 :: f2 :: fs) f (Hin f Hf Hp))
        as (pre & post & Heq).
      exists ("Missing fields " ++ pre), post. rewrite Heq. reflexivity.
    + split; [discriminate|].
      intros (_ & Hall). apply Hnil in Hall. discriminate.
Qed.

Lemma validatePostPararmsForSubmit_spec_witness :
  exists r,
    validatePostPararmsForSubmit 0%nat
      (Fixture.world_with [("descriptor_id", JStr "123"); ("indicator", JStr "x")])
    = (Ret r,
       Fixture.world_with [("descriptor_id", JStr "123"); ("indicator", JStr "x")])
    /\ r = Some "descriptor_id must not be specified for submit.".
Proof.
  destruct (validatePostPararmsForSubmit_spec 0%nat
              [("descriptor_id", JStr "123"); ("indicator", JStr "x")]
              (Fixture.world_with
                 [("descriptor_id", JStr "123"); ("indicator", JStr "x")]))
    as (r & Hrun & Hid & _).
  - reflexivity.
  - exists r. split; [exact Hrun|]. now apply Hid.
Defined.

Example validatePostPararmsForSubmit_missing :
  validatePostPararmsForSubmit 0%nat
    (Fixture.world_with [("indicator", JStr "x"); ("status", JNull)])
  = (Ret (Some "Missing fields type,description,share_level,status,privacy_type"),
     Fixture.world_with [("indicator", JStr "x"); ("status", JNull)]).
Proof. reflexivity. Qed.

(** ** Frame properties *)

Section Frames.

Context {A B : Type}.

Lemma read_only_ret (a : A) : read_only (mret a).
Proof. now intros w. Qed.

Lemma read_only_lift (o : outcome A) : read_only (lift o).
Proof. now intros w. Qed.

Lemma read_only_bind (m : M A) (f : A -> M B) :
  read_only m -> (forall a, read_only (f a)) -> read_only (x ← m; f x).
Proof.
  intros Hm Hf w. unfold mbind, M_bind. specialize (Hm w).
  destruct (m w) as [[a|e|] w1]; simpl in Hm; subst; auto. apply Hf.
Qed.

Lemma keeps_ret p d (a : A) : keeps p d (mret a).
Proof. now intros w. Qed.

Lemma keeps_lift p d (o : outcome A) : keeps p d (lift o).
Proof. now intros w. Qed.

Lemma keeps_bind p d (m : M A) (f : A -> M B) :
  keeps p d m -> (forall a, keeps p d (f a)) -> keeps p d (x ← m; f x).
Proof.
  intros Hm Hf w Hw. unfold mbind, M_bind. specialize (Hm w Hw).
  destruct (m w) as [[a|e|] w1]; simpl in Hm; auto. now apply Hf.
Qed.

Lemma read_only_keeps p d (m : M A) : read_only m -> keeps p d m.
Proof. intros Hm w Hw. now rewrite Hm. Qed.

End Frames.

Lemma read_only_heap_read p : read_only (heap_read p).
Proof. intros w. unfold heap_read. now destruct (heap w !! p). Qed.

Lemma read_only_dget p k : read_only (dget p k).
Proof.
  apply read_only_bind; [apply read_only_heap_read|].
  intros d. apply read_only_ret.
Qed.

Lemma read_only_for_eachM {A B : Type} (f : A -> M B) l :
  (forall a, read_only (f a)) -> read_only (for_eachM f l).
Proof.
  intros Hf. induction l as [|x l IH]; simpl; [apply read_only_ret|].
  apply read_only_bind; [apply Hf|]. intros y.
  apply read_only_bind; [apply IH|]. intros ys. apply read_only_ret.
Qed.

Ltac read_only_step :=
  first
    [ apply read_only_ret
    | apply read_only_lift
    | apply read_only_dget
    | apply read_only_heap_read
    | apply read_only_bind; [|intros ?]
    | apply read_only_for_eachM; intros ?
    | match goal with
      | |- read_only (if ?b then _ else _) => destruct b
      | |- read_only (match ?x with _ => _ end) => destruct x
      end ].

Lemma read_only_validate_submit p : read_only (validatePostPararmsForSubmit p).
Proof. unfold validatePostPararmsForSubmit. repeat read_only_step. Qed.

Lemma read_only_validate_update p : read_only (validatePostPararmsForUpdate p).
Proof. unfold validatePostPararmsForUpdate. repeat read_only_step. Qed.

Lemma read_only_validate_copy p : read_only (validatePostPararmsForCopy p).
Proof. unfold validatePostPararmsForCopy. repeat read_only_step. Qed.

Section Keeps.

Context (E : Env) (p : loc) (d : dict).

Lemma keeps_urlopen r : keeps p d (urlopen E r).
Proof. now intros w. Qed.

Lemma keeps_heap_alloc d' : keeps p d (heap_alloc d').
Proof. intros w Hw. simpl. now apply lookup_app_l_Some. Qed.

Lemma keeps_tryGET url : keeps p d (tryGET E url).
Proof.
  unfold tryGET, raise. destruct url; try apply keeps_lift.
  apply keeps_bind; [apply keeps_urlopen|].
  intros [| |]; first [apply keeps_ret | apply keeps_lift].
Qed.

Lemma keeps_getJSONFromURL_loop fuel : forall t url,
  keeps p d (getJSONFromURL_loop E fuel t url).
Proof.
  induction fuel as [|fuel IH]; intros t url; simpl.
  - apply keeps_lift.
  - apply keeps_bind; [apply keeps_tryGET|].
    intros [[j|]|c b]; unfold raise;
      try first [apply keeps_ret | apply keeps_lift].
    destruct ((c <? 500) || (c >=? 600)); [apply keeps_lift|].
    destruct (t + 1 >? 4); [apply keeps_lift|apply IH].
Qed.

Lemma keeps_getJSONFromURL url : keeps p d (getJSONFromURL E url).
Proof. apply keeps_getJSONFromURL_loop. Qed.

End Keeps.

Ltac keeps_step :=
  first
    [ apply keeps_ret
    | apply keeps_lift
    | apply keeps_urlopen
    | apply keeps_heap_alloc
    | apply keeps_getJSONFromURL
    | apply read_only_keeps;
      first [ apply read_only_heap_read
            | apply read_only_validate_submit
            | apply read_only_validate_update
            | apply read_only_validate_copy ]
    | apply keeps_bind; [|intros ?]
    | match goal with
      | |- keeps _ _ (if ?b then _ else _) => destruct b
      | |- keeps _ _ (match ?x with _ => _ end) => destruct x
      end ].

Lemma keeps_getInfoForIDs E p d ids incl :
  keeps p d (getInfoForIDs E ids incl).
Proof. unfold getInfoForIDs. repeat keeps_step. Qed.

Lemma keeps_postThreatDescriptor E p d url q showURLs dryRun :
  keeps p d (_postThreatDescriptor E url q showURLs dryRun).
Proof. unfold _postThreatDescriptor, raise. repeat keeps_step. Qed.

Lemma keeps_submitThreatDescriptor E p d q showURLs dryRun :
  keeps p d (submitThreatDescriptor E q showURLs dryRun).
Proof.
  unfold submitThreatDescriptor.
  apply keeps_bind; [apply read_only_keeps, read_only_validate_submit|].
  intros [m|]; [apply keeps_ret|].
  apply keeps_bind; [apply keeps_lift|]. intros token.
  apply keeps_postThreatDescriptor.
Qed.

(** ** Copying a descriptor *)

Lemma present_lookup d k :
  present d k = true -> exists v, Dict.lookup k d = Some v.
Proof.
  unfold present, Dict.get. destruct (Dict.lookup k d); [eauto|discriminate].
Qed.

Lemma validatePostPararmsForCopy_passes p d w :
  heap w !! p = Some d -> passes_copy_validation d = true ->
  validatePostPararmsForCopy p w = (Ret None, w).
Proof.
  intros H Hp. unfold passes_copy_validation, present in Hp.
  apply andb_true_iff in Hp as [Hp H3]. apply andb_true_iff in Hp as [H1 H2].
  apply negb_true_iff in H1, H2, H3.
  unfold validatePostPararmsForCopy.
  change (pname "descriptor_id") with "descriptor_id".
  change (pname "privacy_type") with "privacy_type".
  change (pname "privacy_members") with "privacy_members".
  rewrite (run_bind_ret _ _ _ _ _ (run_dget p d _ w H)), H1.
  rewrite (run_bind_ret _ _ _ _ _ (run_dget p d _ w H)), H2.
  rewrite (run_bind_ret _ _ _ _ _ (run_dget p d _ w H)), H3.
  reflexivity.
Qed.

(** Whatever the fetch of the source descriptor does, the caller's dict
    has lost [descriptor_id] when [copy_payload] is left. *)
Lemma copy_payload_deletes E p d showURLs w :
  heap w !! p = Some d -> present d "descriptor_id" = true ->
  heap (snd (copy_payload E p showURLs w)) !! p
  = Some (Dict.remove "descriptor_id" d).
Proof.
  intros H Hp. destruct (present_lookup _ _ Hp) as [v Hv].
  unfold copy_payload.
  rewrite (run_bind_ret _ _ _ _ _ (run_heap_read p d w H)).
  rewrite (run_bind_lift _ _ _ v); [|simpl; now rewrite Hv].
  rewrite (run_bind_ret _ _ w ()
             (World (requests w) (callbacks w)
                    (<[p := Dict.remove "descriptor_id" d]> (heap w))));
    [|reflexivity].
  match goal with
  | |- heap (snd (?m ?w1)) !! _ = _ =>
      assert (Hk : keeps p (Dict.remove "descriptor_id" d) m)
  end.
  { unfold raise. repeat keeps_step. }
  apply Hk. simpl. apply list_lookup_insert_eq. now apply lookup_lt_Some in H.
Qed.

(** C10.  When the caller's field map passes the copy validation,
    [copyThreatDescriptor] leaves the caller's own dict without
    [descriptor_id] and otherwise as it was, whatever the fetch of the
    source descriptor and the submission then do (the deletion comes
    first); the three validators leave the world, and so the map they are
    given, as they found it. *)
Theorem copyThreatDescriptor_deletes_descriptor_id (E : Env) (p : loc)
  (d : dict) (showURLs dryRun : bool) (w : world) :
  heap w !! p = Some d ->
  passes_copy_validation d = true ->
  heap (snd (copyThreatDescriptor E p showURLs dryRun w)) !! p
  = Some (Dict.remove "descriptor_id" d)
  /\ Dict.lookup "descriptor_id" (Dict.remove "descriptor_id" d) = None
  /\ (forall k, k <> "descriptor_id" ->
        Dict.lookup k (Dict.remove "descriptor_id" d) = Dict.lookup k d)
  /\ (forall q, read_only (validatePostPararmsForSubmit q)
                /\ read_only (validatePostPararmsForUpdate q)
                /\ read_only (validatePostPararmsForCopy q)).
Proof.
  intros H Hp. split; [|split; [|split]].
  - unfold copyThreatDescriptor.
    rewrite (run_bind_ret _ _ _ _ _ (validatePostPararmsForCopy_passes p d w H Hp)).
    assert (Hid : present d "descriptor_id" = true).
    { unfold passes_copy_validation in Hp.
      now apply andb_true_iff in Hp as [[? _]%andb_true_iff _]. }
    pose proof (copy_payload_deletes E p d showURLs w H Hid) as Hdel.
    unfold mbind at 1, M_bind.
    destruct (copy_payload E p showURLs w) as [[payload|e|] w1]; simpl in Hdel;
      try exact Hdel.
    revert Hdel. generalize (Dict.remove "descriptor_id" d). intros d' Hdel.
    assert (Hk : keeps p d' (q ← heap_alloc payload;
                             submitThreatDescriptor E q showURLs dryRun)).
    { apply keeps_bind; [apply keeps_heap_alloc|]. intros q.
      apply keeps_submitThreatDescriptor. }
    now apply Hk.
  - apply DictFacts.lookup_remove_eq.
  - intros k Hk. apply DictFacts.lookup_remove_ne. congruence.
  - intros q. split; [|split].
    + apply read_only_validate_submit.
    + apply read_only_validate_update.
    + apply read_only_validate_copy.
Qed.

Lemma copyThreatDescriptor_deletes_descriptor_id_witness :
  heap (snd (copyThreatDescriptor
               (Fixture.env [HttpResponse (Some Fixture.source_reply)])
               0%nat false true (Fixture.world_with Fixture.copy_params)))
    !! 0%nat
  = Some [ ("description", JStr "d");
           ("privacy_type", JStr "HAS_WHITELIST");
           ("privacy_members", JStr "1064060413755420") ].
Proof.
  apply (copyThreatDescriptor_deletes_descriptor_id
           (Fixture.env [HttpResponse (Some Fixture.source_reply)])
           0%nat Fixture.copy_params false true
           (Fixture.world_with Fixture.copy_params)).
  - reflexivity.
  - reflexivity.
Defined.

(** ** Posting *)

Lemma validatePostPararmsForUpdate_returns p d w :
  heap w !! p = Some d ->
  exists r, validatePostPararmsForUpdate p w = (Ret r, w).
Proof.
  intros H. unfold validatePostPararmsForUpdate.
  rewrite (run_bind_ret _ _ _ _ _ (run_dget p d _ w H)).
  destruct (is_none _); [eexists; reflexivity|].
  rewrite (run_bind_ret _ _ _ _ _ (run_dget p d _ w H)).
  destruct (is_none _); [|eexists; reflexivity].
  rewrite (run_bind_ret _ _ _ _ _ (run_dget p d _ w H)).
  eexists; reflexivity.
Qed.

Lemma validatePostPararmsForSubmit_returns p d w :
  heap w !! p = Some d ->
  exists r, validatePostPararmsForSubmit p w = (Ret r, w).
Proof.
  intros H. unfold validatePostPararmsForSubmit.
  rewrite (run_bind_ret _ _ _ _ _ (run_dget p d _ w H)).
  destruct (negb _); [eexists; reflexivity|].
  rewrite (run_bind_ret _ _ _ _ _
             (run_for_eachM_dget p d w
                (fun v f => if is_none v then Some f else None) _ H)).
  destruct (not_none _) as [|? [|? ?]]; eexists; reflexivity.
Qed.

Section Posting.

Context (E : Env) (dryRun : bool).

Lemma posts_postThreatDescriptor url p showURLs :
  posts E dryRun (_postThreatDescriptor E url p showURLs dryRun).
Proof.
  intros w e t body w'. unfold _postThreatDescriptor, heap_read.
  unfold mbind at 1, M_bind.
  destruct (heap w !! p) as [d|]; [|discriminate].
  destruct dryRun.
  - intros [= <- <- <- <-]. split; [discriminate|auto].
  - unfold mbind, M_bind, urlopen.
    match goal with
    | |- context [server E ?n ?r] =>
        destruct (server E n r) as [[j|]|c [j|]|] eqn:Ho
    end; cbn; try discriminate.
    + intros [= <- <- <- <-]. split; [|discriminate].
      intros ->. split; [reflexivity|].
      match type of Ho with server E _ ?r = _ => exists r end.
      split; [reflexivity|]. now rewrite Ho.
    + intros [= <- <- <- <-]. split; [|discriminate].
      intros ->. split; [reflexivity|].
      match type of Ho with server E _ ?r = _ => exists r end.
      split; [reflexivity|]. now rewrite Ho.
Qed.

Lemma posts_lift {A : Type} (o : outcome A) (k : A -> M post_result) :
  (forall a, posts E dryRun (k a)) -> posts E dryRun (x ← lift o; k x).
Proof.
  intros Hk w e t body w'. unfold mbind, M_bind, lift.
  destruct o as [a| |]; try discriminate. apply Hk.
Qed.

Lemma posts_heap_read p (k : dict -> M post_result) :
  (forall a, posts E dryRun (k a)) -> posts E dryRun (x ← heap_read p; k x).
Proof.
  intros Hk w e t body w'. unfold mbind, M_bind, heap_read.
  destruct (heap w !! p) as [d|]; try discriminate. apply Hk.
Qed.

(** A posting method is its validator, then the posting code. *)
Lemma post_shape_of (validate : M (option string)) (rest : M post_result) w :
  (exists r, validate w = (Ret r, w)) ->
  posts E dryRun rest ->
  post_shape E validate
    (errorMessage ← validate;
     match errorMessage with
     | Some m => mret (Some m, None, JNull)
     | None => rest
     end) dryRun w.
Proof.
  intros [r Hr] Hrest. unfold post_shape.
  rewrite (run_bind_ret _ _ _ _ _ Hr).
  split; [|split].
  - intros m Hm. rewrite Hm in Hr. now inversion Hr.
  - intros e t body w' Hrun Hnull. destruct r as [m|].
    + left. inversion Hrun; subst. repeat split; auto; discriminate.
    + right. now apply (Hrest w e t body w' Hrun).
  - intros Hdry e t body w' Hrun Hval. rewrite Hval in Hr.
    inversion Hr; subst. now apply (Hrest w e t body w' Hrun).
Qed.

End Posting.

(** C3.  For [submitThreatDescriptor] and [updateThreatDescriptor] on a
    field map held at [p]: when the validation fails the result is the
    validation error with two nulls and the world is untouched, so no
    request was made; a returned body is null only when the validation
    failed or when the body that the server sent decodes to null; and a
    dry run that passes the validation returns the empty string as body,
    not null, and makes no request. *)
Theorem posting_result_shape (E : Env) (p : loc) (d : dict)
  (showURLs dryRun : bool) (w : world) :
  heap w !! p = Some d ->
  post_shape E (validatePostPararmsForSubmit p)
    (submitThreatDescriptor E p showURLs dryRun) dryRun w
  /\ post_shape E (validatePostPararmsForUpdate p)
       (updateThreatDescriptor E p showURLs dryRun) dryRun w.
Proof.
  intros H. split.
  - apply post_shape_of; [now apply (validatePostPararmsForSubmit_returns p d)|].
    apply posts_lift. intros token. apply posts_postThreatDescriptor.
  - apply post_shape_of; [now apply (validatePostPararmsForUpdate_returns p d)|].
    apply posts_heap_read. intros d'.
    apply posts_lift. intros id. apply posts_lift. intros id'.
    apply posts_lift. intros token. apply posts_postThreatDescriptor.
Qed.

Lemma posting_result_shape_witness :
  submitThreatDescriptor (Fixture.env []) 0%nat false false
    (Fixture.world_with [("descriptor_id", JStr "123")])
  = (Ret (Some "descriptor_id must not be specified for submit.", None, JNull),
     Fixture.world_with [("descriptor_id", JStr "123")]).
Proof.
  destruct (posting_result_shape (Fixture.env []) 0%nat
              [("descriptor_id", JStr "123")] false false
              (Fixture.world_with [("descriptor_id", JStr "123")]) eq_refl)
    as [(Hfail & _) _].
  apply Hfail. reflexivity.
Defined.

(** The sentence as the specification has it fails: the server answers a
    valid submission that is no dry run with the body [null], and the
    result is [[None, None, None]]. *)
Lemma null_body_from_server : ~ null_body_only_if_invalid_or_dry_run.
Proof.
  intros Hclaim.
  destruct (Hclaim (Fixture.env [HttpResponse (Some JNull)]) 0%nat false false
              (Fixture.world_with Fixture.submit_params)
              (snd (submitThreatDescriptor
                      (Fixture.env [HttpResponse (Some JNull)]) 0%nat false
                      false (Fixture.world_with Fixture.submit_params)))
              None None JNull eq_refl eq_refl) as [[m Hm]|Hdry];
    discriminate.
Qed.

Example dry_run_body :
  fst (submitThreatDescriptor (Fixture.env []) 0%nat false true
         (Fixture.world_with Fixture.submit_params))
  = Ret (None, None, JStr EmptyString).
Proof. reflexivity. Qed.

(** ** Time parsing *)

Module StringFacts.

Lemma append_assoc (a b c : string) : ((a ++ b) ++ c = a ++ b ++ c)%string.
Proof. induction a; simpl; [reflexivity|now f_equal]. Qed.

Lemma append_nil_r (a : string) : (a ++ EmptyString = a)%string.
Proof. induction a; simpl; [reflexivity|now f_equal]. Qed.

Lemma last_char_app (a b : string) :
  b <> EmptyString -> last_char (a ++ b) = last_char b.
Proof.
  intros Hb. induction a as [|c a IH]; [reflexivity|].
  simpl. rewrite IH. destruct (a ++ b)%string eqn:Hab; [|reflexivity].
  destruct a; simpl in Hab; [congruence|discriminate].
Qed.

Lemma span_digits_spec s ds r :
  span_digits s = (ds, r) -> s = (ds ++ r)%string /\ all_digits ds = true.
Proof.
  revert ds r. induction s as [|a s IH]; intros ds r H; simpl in H.
  - inversion H. auto.
  - destruct (is_digit a) eqn:Ha.
    + destruct (span_digits s) as [ds' r'] eqn:Hs. inversion H; subst.
      destruct (IH ds' r eq_refl) as [-> Hd]. simpl. now rewrite Ha.
    + inversion H. auto.
Qed.

Lemma strip_prefix_spec p s r :
  strip_prefix p s = Some r -> s = (p ++ r)%string.
Proof.
  revert s. induction p as [|a p IH]; intros s H; simpl in H.
  - now inversion H.
  - destruct s as [|b s]; [discriminate|].
    destruct (Ascii.eqb_spec a b) as [->|]; [|discriminate].
    simpl. f_equal. now apply IH.
Qed.

Lemma at_dollar_spec r :
  at_dollar r = true -> r = EmptyString \/ r = newline.
Proof.
  unfold at_dollar. intros H. apply orb_true_iff in H as [H|H];
    apply String.eqb_eq in H; auto.
Qed.

End StringFacts.

(** What the pattern of a relative helper accepts. *)
Lemma match_relative_sound unit s digits :
  In unit time_units ->
  match_relative unit s = Some digits ->
  relative_form_or_newline s.
Proof.
  intros Hu. unfold match_relative.
  destruct s as [|a rest]; [discriminate|].
  destruct (Ascii.eqb_spec a "-"%char) as [->|Hne].
  2:{ destruct a as [[] [] [] [] [] [] [] []]; try discriminate.
      now contradict Hne. }
  destruct (span_digits rest) as [ds r1] eqn:Hspan.
  apply StringFacts.span_digits_spec in Hspan as [-> Hds].
  destruct ds as [|c ds]; [discriminate|].
  destruct (strip_prefix unit r1) as [r2|] eqn:Hunit; [|discriminate].
  apply StringFacts.strip_prefix_spec in Hunit as ->.
  assert (Hplural : exists plural r3,
             r2 = (plural ++ r3)%string
             /\ (plural = EmptyString \/ plural = "s")
             /\ match strip_prefix "s" r2 with
                | Some rest' => rest'
                | None => r2
                end = r3).
  { destruct (strip_prefix "s" r2) as [r3|] eqn:Hs.
    - apply StringFacts.strip_prefix_spec in Hs. exists "s", r3. auto.
    - exists EmptyString, r2. auto. }
  destruct Hplural as (plural & r3 & -> & Hpl & ->).
  destruct (at_dollar r3) eqn:Hend; [|discriminate]. intros _.
  assert (Hform : relative_form ("-" ++ String c ds ++ unit ++ plural)).
  { exists (String c ds), unit, plural. repeat split; auto; discriminate. }
  apply StringFacts.at_dollar_spec in Hend as [->| ->].
  - left. now rewrite StringFacts.append_nil_r.
  - right. exists ("-" ++ String c ds ++ unit ++ plural)%string.
    split; [|assumption].
    change ("-" ++ String c ds ++ unit ++ plural)%string
      with (String "-" (String c ds ++ unit ++ plural))%string.
    cbn [append]. f_equal. f_equal.
    now rewrite !StringFacts.append_assoc.
Qed.

Lemma parse_relative_unmatched E unit seconds s :
  In unit time_units ->
  ~ relative_form_or_newline s ->
  parse_relative E unit seconds s = Ret None.
Proof.
  intros Hu Hn. unfold parse_relative.
  destruct (match_relative unit s) as [digits|] eqn:Hm; [|reflexivity].
  contradict Hn. now apply (match_relative_sound unit s digits).
Qed.

Lemma try_formats_unmatched E s formats :
  (forall fmt, In fmt formats -> strptime_timestamp E s fmt = Raise ValueError) ->
  try_formats E s formats = Ret None.
Proof.
  induction formats as [|fmt formats IH]; intros H; [reflexivity|].
  simpl. unfold _parseDateTimeStringSingleFormat.
  rewrite (H fmt (or_introl eq_refl)). simpl. apply IH.
  intros f Hf. apply H. now right.
Qed.

(** C8.  The integer reading is tried first: a string that [int]
    accepts parses to that integer.  A string that [int] rejects, that
    [strptime] rejects under each of the five formats, and that is not a
    minus sign, one or more decimal digits and a singular or plural unit
    word, alone or followed by one newline, parses to [None]; nothing is
    raised. *)
Theorem parseTimeStringToEpochSeconds_spec (E : Env) (s : string) :
  (forall n, py_int E s = Some n ->
             parseTimeStringToEpochSeconds E s = Ret (Some n))
  /\ (py_int E s = None -> no_datetime_format E s ->
      ~ relative_form_or_newline s ->
      parseTimeStringToEpochSeconds E s = Ret None).
Proof.
  unfold parseTimeStringToEpochSeconds, _parseIntStringToEpochSeconds.
  split.
  - intros n ->. reflexivity.
  - intros -> Hfmt Hrel. simpl.
    unfold _parseDateTimeStringToEpochSeconds.
    rewrite (try_formats_unmatched E s DATETIME_FORMATS Hfmt). simpl.
    unfold _parseRelativeStringToEpochSeconds, _parseRelativeStringMinute,
      _parseRelativeStringHour, _parseRelativeStringDay,
      _parseRelativeStringWeek.
    rewrite !parse_relative_unmatched; simpl; auto 6.
Qed.

Lemma parseTimeStringToEpochSeconds_spec_witness :
  parseTimeStringToEpochSeconds (Fixture.env []) "1591626448"
  = Ret (Some 1591626448)
  /\ parseTimeStringToEpochSeconds (Fixture.env []) "nonesuch" = Ret None.
Proof.
  split.
  - apply (parseTimeStringToEpochSeconds_spec (Fixture.env []) "1591626448").
    reflexivity.
  - apply (parseTimeStringToEpochSeconds_spec (Fixture.env []) "nonesuch").
    + reflexivity.
    + intros fmt _. reflexivity.
    + intros [(digits & unit & plural & Heq & _)
             |(s' & Hs & (digits & unit & plural & Heq & _))].
      * simpl in Heq. discriminate Heq.
      * subst s'. simpl in Hs. discriminate Hs.
Defined.

(** The sentence as the specification has it fails on a relative form
    followed by a newline, which [$] lets through: the string is none of
    the three forms and is parsed as one week ago. *)
Lemma relative_form_with_newline : ~ unmatched_is_unresolved.
Proof.
  intros Hclaim.
  specialize (Hclaim (Fixture.env []) ("-1week" ++ newline)%string).
  assert (Hrun : parseTimeStringToEpochSeconds (Fixture.env [])
                   ("-1week" ++ newline)
                 = Ret (Some (1600000000 - 604800))) by reflexivity.
  rewrite Hclaim in Hrun; [discriminate|reflexivity| |].
  - intros fmt _. reflexivity.
  - intros (digits & unit & plural & Heq & _ & _ & Hu & Hpl).
    apply (f_equal last_char) in Heq. simpl in Hu.
    destruct Hu as [<-|[<-|[<-|[<-|[]]]]], Hpl as [->| ->];
      rewrite <- (StringFacts.append_assoc "-" digits) in Heq;
      rewrite (StringFacts.last_char_app ("-" ++ digits)) in Heq
        by discriminate;
      cbv in Heq; discriminate Heq.
Qed.

Example relative_one_week :
  parseTimeStringToEpochSeconds (Fixture.env []) "-1week"
  = Ret (Some (1600000000 - 604800)).
Proof. reflexivity. Qed.

(** ** The payload of a copy *)

Lemma inv_bind {A B : Type} (m : M A) (f : A -> M B) w b w' :
  (x ← m; f x) w = (Ret b, w') ->
  exists a w1, m w = (Ret a, w1) /\ f a w1 = (Ret b, w').
Proof.
  unfold mbind, M_bind. destruct (m w) as [[a|e|] w1]; try discriminate.
  eauto.
Qed.

Lemma inv_lift {A : Type} (o : outcome A) w a w' :
  lift o w = (Ret a, w') -> o = Ret a /\ w' = w.
Proof. unfold lift. now intros [= -> ->]. Qed.

Lemma inv_obind {A B : Type} (o : outcome A) (f : A -> outcome B) b :
  (x ← o; f x) = Ret b -> exists a, o = Ret a /\ f a = Ret b.
Proof. destruct o as [a| |]; try discriminate. eauto. Qed.

Lemma for_each_Forall {A B : Type} (f : A -> outcome B) (P : B -> Prop) l :
  (forall x y, f x = Ret y -> P y) ->
  forall ys, for_each f l = Ret ys -> Forall P ys.
Proof.
  intros Hf. induction l as [|x l IH]; intros ys H; simpl in H.
  - inversion H. constructor.
  - apply inv_obind in H as (y & Hy & H).
    apply inv_obind in H as (ys' & Hys & H). inversion H; subst.
    constructor; eauto.
Qed.

Lemma mem_set k k' v d :
  Dict.mem k d = true -> Dict.mem k (Dict.set k' v d) = true.
Proof.
  unfold Dict.mem. destruct (String.eqb_spec k' k) as [->|Hne].
  - now rewrite DictFacts.lookup_set_eq.
  - now rewrite DictFacts.lookup_set_ne.
Qed.

Lemma mem_update k other : forall d,
  Dict.mem k d = true -> Dict.mem k (Dict.update d other) = true.
Proof.
  unfold Dict.update.
  induction other as [|[k' v] other IH]; intros d H; [assumption|].
  simpl. apply IH. now apply mem_set.
Qed.

Lemma lookup_filter_keys keep k d :
  keep k = true ->
  Dict.lookup k (Dict.filter_keys keep d) = Dict.lookup k d.
Proof.
  intros Hk. unfold Dict.filter_keys.
  induction d as [|[k' v] d IH]; [reflexivity|]. simpl.
  destruct (String.eqb_spec k k') as [<-|Hne].
  - rewrite Hk. simpl. now rewrite String.eqb_refl.
  - destruct (keep k'); simpl; [|assumption].
    destruct (String.eqb_spec k k'); [contradiction|assumption].
Qed.

Lemma getInfoForIDs_item_has_tag_list incl x y :
  getInfoForIDs_item incl x = Ret y -> has_tag_list y.
Proof.
  unfold getInfoForIDs_item. intros H.
  apply inv_obind in H as (x1 & _ & H).
  apply inv_obind in H as (x2 & Htags & H).
  unfold normalize_tags in Htags.
  apply inv_obind in Htags as (t1 & _ & Htags).
  apply inv_obind in Htags as (t2 & _ & Htags).
  apply inv_obind in Htags as (items & _ & Htags).
  apply inv_obind in Htags as (texts & _ & Htags).
  apply inv_obind in Htags as (sorted & _ & Htags).
  destruct x1 as [| | | | |d1]; try discriminate.
  inversion Htags; subst. simpl in H. inversion H; subst.
  exists (normalize_description (Dict.set "tags" (JArr sorted) d1)), sorted.
  split; [reflexivity|].
  now rewrite lookup_tags_normalize_description, DictFacts.lookup_set_eq.
Qed.

Lemma getInfoForIDs_has_tag_list E ids incl w descriptors w' :
  getInfoForIDs E ids incl w = (Ret descriptors, w') ->
  Forall has_tag_list descriptors.
Proof.
  unfold getInfoForIDs. intros H.
  apply inv_bind in H as (? & ? & _ & H).
  apply inv_bind in H as (? & ? & _ & H).
  apply inv_bind in H as (? & ? & _ & H).
  apply inv_bind in H as (? & ? & _ & H).
  apply inv_bind in H as (items & ? & _ & H).
  apply inv_lift in H as [H _].
  apply (for_each_Forall _ has_tag_list _
           (fun kv y => getInfoForIDs_item_has_tag_list incl (snd kv) y) _ H).
Qed.

(** The [tags is None] deletion of [copyThreatDescriptor] never fires:
    whatever the source and the caller's fields, a payload that is built
    has a [tags] key. *)
Lemma copy_payload_has_tags E p showURLs w payload w' :
  copy_payload E p showURLs w = (Ret payload, w') ->
  Dict.mem "tags" payload = true.
Proof.
  unfold copy_payload. intros H.
  apply inv_bind in H as (d & w1 & _ & H).
  apply inv_bind in H as (sourceID & w2 & _ & H).
  apply inv_bind in H as ([] & w3 & _ & H).
  apply inv_bind in H as (descriptors & w4 & Hinfo & H).
  apply getInfoForIDs_has_tag_list in Hinfo.
  apply inv_bind in H as (source & w5 & Hsrc & H).
  destruct descriptors as [|x rest]; [discriminate|].
  inversion Hsrc; subst. inversion Hinfo as [|? ? (d0 & l & -> & Htags) _].
  subst.
  apply inv_bind in H as (raw & w6 & Hraw & H). apply inv_lift in Hraw as [Hraw ->].
  apply inv_bind in H as (n1 & w7 & Hn1 & H). apply inv_lift in Hn1 as [Hn1 ->].
  simpl in Hn1. inversion Hn1; subst. clear Hn1.
  apply inv_bind in H as (n2 & w8 & Hn2 & H). apply inv_lift in Hn2 as [Hn2 ->].
  simpl in Hn2.
  destruct (Dict.mem "raw_indicator" (Dict.set "indicator" raw d0));
    [|discriminate].
  inversion Hn2; subst. clear Hn2.
  assert (Ht2 : Dict.lookup "tags"
                  (Dict.remove "raw_indicator" (Dict.set "indicator" raw d0))
                = Some (JArr l)).
  { rewrite DictFacts.lookup_remove_ne by discriminate.
    now rewrite DictFacts.lookup_set_ne by discriminate. }
  apply inv_bind in H as (hasTags & w9 & Hc & H). apply inv_lift in Hc as [Hc ->].
  simpl in Hc. unfold Dict.mem in Hc. rewrite Ht2 in Hc.
  inversion Hc; subst. clear Hc.
  apply inv_bind in H as (n3 & w10 & Hn3 & H).
  rewrite (run_bind_lift _ _ _ (JArr l)) in Hn3 by (simpl; now rewrite Ht2).
  simpl in Hn3. inversion Hn3; subst. clear Hn3.
  apply inv_bind in H as (hasR & w11 & Hc & H). apply inv_lift in Hc as [_ ->].
  apply inv_bind in H as (n4 & w12 & Hn4 & H).
  assert (Ht4 : exists d4, n4 = JObj d4 /\ Dict.mem "tags" d4 = true).
  { destruct hasR.
    - apply inv_lift in Hn4 as [Hn4 _]. simpl in Hn4.
      destruct (Dict.mem "reactions" _); [|discriminate].
      inversion Hn4. eexists. split; [reflexivity|].
      unfold Dict.mem. rewrite DictFacts.lookup_remove_ne by discriminate.
      now rewrite Ht2.
    - inversion Hn4. eexists. split; [reflexivity|].
      unfold Dict.mem. now rewrite Ht2. }
  destruct Ht4 as (d4 & -> & Hm4).
  apply inv_bind in H as (overrides & w13 & _ & H).
  apply inv_bind in H as (n5 & w14 & Hn5 & H). apply inv_lift in Hn5 as [Hn5 ->].
  simpl in Hn5. inversion Hn5; subst. clear Hn5.
  apply inv_bind in H as (items & w15 & Hit & H). apply inv_lift in Hit as [Hit ->].
  simpl in Hit. inversion Hit; subst. clear Hit.
  inversion H; subst.
  unfold Dict.mem. rewrite lookup_filter_keys by reflexivity.
  now apply (mem_update "tags" overrides d4).
Qed.

(** C1, at the input that the specification gives.  The source fetched by
    id has
    [raw_indicator] ["abc"], some reactions and null tags, and the caller
    passes [descriptor_id], [description] ["d"] and the privacy fields.
    The dict handed to [submitThreatDescriptor] has [indicator] ["abc"],
    no [reactions] and [description] ["d"], but it does have a [tags]
    key, bound to the empty list that [getInfoForIDs] put in place of
    the null. *)
Theorem copy_payload_null_tags :
  exists payload w',
    copy_payload (Fixture.env [HttpResponse (Some Fixture.source_reply)])
      0%nat false (Fixture.world_with Fixture.copy_params)
    = (Ret payload, w')
    /\ Dict.lookup "indicator" payload = Some (JStr "abc")
    /\ Dict.lookup "reactions" payload = None
    /\ Dict.lookup "description" payload = Some (JStr "d")
    /\ Dict.lookup "tags" payload = Some (JArr [])
    /\ heap (snd (copyThreatDescriptor
                    (Fixture.env [HttpResponse (Some Fixture.source_reply)])
                    0%nat false true (Fixture.world_with Fixture.copy_params)))
         !! 1%nat
       = Some payload.
Proof.
  exists [ ("tags", JArr []); ("description", JStr "d");
           ("indicator", JStr "abc"); ("privacy_type", JStr "HAS_WHITELIST");
           ("privacy_members", JStr "1064060413755420") ].
  exists (snd (copy_payload
                 (Fixture.env [HttpResponse (Some Fixture.source_reply)])
                 0%nat false (Fixture.world_with Fixture.copy_params))).
  repeat split; vm_compute; reflexivity.
Qed.

(** ** Further properties of the fetcher *)




(** ** The id of a tag *)

Lemma for_each_tag_with_name name items :
  forallb (fun o => has_field o "text") items = true ->
  for_each (tag_with_name name) items
  = Ret (map (fun o => if tag_named name o then Some o else None) items).
Proof.
  induction items as [|o items IH]; intros H; [reflexivity|].
  simpl in H. apply andb_true_iff in H as [Ho Hr].
  simpl. rewrite (IH Hr).
  unfold tag_with_name, tag_named, has_field, field in *.
  destruct o as [| | | | |d]; try discriminate. simpl.
  destruct (Dict.lookup "text" d); [reflexivity|discriminate].
Qed.

Lemma appended_find (f : json -> bool) items :
  appended (map (fun o => if f o then Some o else None) items)
  = List.filter f items.
Proof.
  induction items as [|o items IH]; [reflexivity|].
  simpl. destruct (f o); simpl; now rewrite IH.
Qed.

Lemma filter_head_find {A : Type} (f : A -> bool) l :
  List.find f l = match List.filter f l with x :: _ => Some x | [] => None end.
Proof.
  induction l as [|x l IH]; [reflexivity|]. simpl. now destruct (f x).
Qed.

(** X2.  When the server answers the tag lookup with an object whose
    [data] is a list of tags that all have a [text], [getTagIDFromName]
    issues that one request and returns the [id] of the first tag whose
    text is exactly the name, and [None] when there is none: a tag that
    only has the name as a prefix is never returned. *)
Theorem getTagIDFromName_exact (E : Env) (token tagName : string)
  (showURLs : bool) (response : json) (items : list json) (w : world) :
  APP_TOKEN E = Some token ->
  server E (length (requests w)) (get_request (threat_tags_url E token tagName))
  = HttpResponse (Some response) ->
  field response "data" = Some (JArr items) ->
  forallb (fun o => has_field o "text") items = true ->
  getTagIDFromName E tagName showURLs w
  = (match List.find (tag_named tagName) items with
     | Some o => py_getitem o "id"
     | None => Ret JNull
     end,
     add_requests w [get_request (threat_tags_url E token tagName)]).
Proof.
  intros Htok Hsrv Hdata Htext. unfold getTagIDFromName, app_token.
  rewrite Htok. rewrite (run_bind_lift _ _ _ token eq_refl).
  change (TE_BASE_URL E ++ "/threat_tags" ++ "/?access_token=" ++ token
          ++ "&text=" ++ quote E tagName)%string
    with (threat_tags_url E token tagName).
  rewrite (run_bind_ret _ _ _ _ _
             (getJSONFromURL_response E _ w response Hsrv)).
  assert (Hget : py_getitem response "data" = Ret (JArr items)).
  { unfold field in Hdata. destruct response; try discriminate.
    simpl. now rewrite Hdata. }
  rewrite (run_bind_lift _ _ _ _ Hget).
  rewrite (run_bind_lift _ _ _ items eq_refl).
  rewrite (run_bind_lift _ _ _ _ (for_each_tag_with_name tagName items Htext)).
  rewrite appended_find, filter_head_find.
  destruct (List.filter (tag_named tagName) items); reflexivity.
Qed.

Lemma getTagIDFromName_exact_witness :
  getTagIDFromName
    (Fixture.env
       [ HttpResponse
           (Some (JObj [ ("data",
                          JArr [ JObj [("id", JStr "71");
                                       ("text", JStr "media_type_video_long_hash")];
                                 JObj [("id", JStr "28");
                                       ("text", JStr "media_type_video")] ]) ])) ])
    "media_type_video" false Fixture.empty_world
  = (Ret (JStr "28"),
     add_requests Fixture.empty_world
       [get_request
          "https://graph.facebook.com/v6.0/threat_tags/?access_token=TOKEN&text=media_type_video"]).
Proof.
  apply (getTagIDFromName_exact
           (Fixture.env
              [ HttpResponse
                  (Some (JObj [ ("data",
                                 JArr [ JObj [("id", JStr "71");
                                              ("text", JStr "media_type_video_long_hash")];
                                        JObj [("id", JStr "28");
                                              ("text", JStr "media_type_video")] ]) ])) ])
           "TOKEN" "media_type_video" false
           (JObj [ ("data",
                    JArr [ JObj [("id", JStr "71");
                                 ("text", JStr "media_type_video_long_hash")];
                           JObj [("id", JStr "28");
                                 ("text", JStr "media_type_video")] ]) ])
           [ JObj [("id", JStr "71"); ("text", JStr "media_type_video_long_hash")];
             JObj [("id", JStr "28"); ("text", JStr "media_type_video")] ]
           Fixture.empty_world); reflexivity.
Defined.

(** ** Further properties of the validators and of posting *)

Lemma validatePostPararmsForCopy_run p d w :
  heap w !! p = Some d ->
  validatePostPararmsForCopy p w
  = (Ret (if negb (present d "descriptor_id")
          then Some "Source-descriptor ID must be specified for copy."
          else if negb (present d "privacy_type")
          then Some "Privacy type must be specified for copy."
          else if negb (present d "privacy_members")
          then Some "Privacy members must be specified for copy."
          else None), w).
Proof.
  intros H. unfold validatePostPararmsForCopy, present.
  rewrite !negb_involutive.
  change (pname "descriptor_id") with "descriptor_id".
  change (pname "privacy_type") with "privacy_type".
  change (pname "privacy_members") with "privacy_members".
  rewrite (run_bind_ret _ _ _ _ _ (run_dget p d _ w H)).
  destruct (is_none (Dict.get d "descriptor_id")); [reflexivity|].
  rewrite (run_bind_ret _ _ _ _ _ (run_dget p d _ w H)).
  destruct (is_none (Dict.get d "privacy_type")); [reflexivity|].
  rewrite (run_bind_ret _ _ _ _ _ (run_dget p d _ w H)).
  now destruct (is_none (Dict.get d "privacy_members")).
Qed.

(** X3.  The copy validator leaves the world as it is and reports the
    first of [descriptor_id], [privacy_type], [privacy_members], in that
    order, that is null or absent; it returns [None] exactly when all
    three are there. *)
Theorem validatePostPararmsForCopy_spec (p : loc) (d : dict) (w : world) :
  heap w !! p = Some d ->
  exists r,
    validatePostPararmsForCopy p w = (Ret r, w)
    /\ (r = None <-> passes_copy_validation d = true)
    /\ (present d "descriptor_id" = false ->
        r = Some "Source-descriptor ID must be specified for copy.")
    /\ (present d "descriptor_id" = true -> present d "privacy_type" = false ->
        r = Some "Privacy type must be specified for copy.")
    /\ (present d "descriptor_id" = true -> present d "privacy_type" = true ->
        present d "privacy_members" = false ->
        r = Some "Privacy members must be specified for copy.").
Proof.
  intros H. eexists. split; [apply (validatePostPararmsForCopy_run p d w H)|].
  unfold passes_copy_validation.
  destruct (present d "descriptor_id"), (present d "privacy_type"),
    (present d "privacy_members"); simpl; intuition congruence.
Qed.

Lemma validatePostPararmsForCopy_spec_witness :
  exists r,
    validatePostPararmsForCopy 0%nat
      (Fixture.world_with [("descriptor_id", JStr "1"); ("privacy_type", JStr "x")])
    = (Ret r,
       Fixture.world_with [("descriptor_id", JStr "1"); ("privacy_type", JStr "x")])
    /\ r = Some "Privacy members must be specified for copy.".
Proof.
  destruct (validatePostPararmsForCopy_spec 0%nat
              [("descriptor_id", JStr "1"); ("privacy_type", JStr "x")]
              (Fixture.world_with
                 [("descriptor_id", JStr "1"); ("privacy_type", JStr "x")])
              eq_refl)
    as (r & Hrun & _ & _ & _ & Hm).
  exists r. split; [exact Hrun|]. now apply Hm.
Defined.

(** X4.  A copy whose field map fails the copy validation returns the
    validation error alone and touches nothing: no request is made and
    the caller's map keeps its [descriptor_id]. *)
Theorem copyThreatDescriptor_rejected (E : Env) (p : loc) (d : dict)
  (showURLs dryRun : bool) (w : world) :
  heap w !! p = Some d ->
  passes_copy_validation d = false ->
  exists m,
    copyThreatDescriptor E p showURLs dryRun w = (Ret (Some m, None, JNull), w).
Proof.
  intros H Hp. unfold copyThreatDescriptor.
  rewrite (run_bind_ret _ _ _ _ _ (validatePostPararmsForCopy_run p d w H)).
  unfold passes_copy_validation in Hp.
  destruct (present d "descriptor_id"), (present d "privacy_type"),
    (present d "privacy_members"); simpl in *; try discriminate;
    eexists; reflexivity.
Qed.

Lemma copyThreatDescriptor_rejected_witness :
  exists m,
    copyThreatDescriptor (Fixture.env []) 0%nat false false
      (Fixture.world_with [("descriptor_id", JStr "1"); ("privacy_type", JStr "x")])
    = (Ret (Some m, None, JNull),
       Fixture.world_with [("descriptor_id", JStr "1"); ("privacy_type", JStr "x")]).
Proof.
  apply (copyThreatDescriptor_rejected (Fixture.env []) 0%nat
           [("descriptor_id", JStr "1"); ("privacy_type", JStr "x")]);
    reflexivity.
Defined.

Lemma validatePostPararmsForSubmit_passes p d w :
  heap w !! p = Some d ->
  present d "descriptor_id" = false -> missing_fields d = [] ->
  validatePostPararmsForSubmit p w = (Ret None, w).
Proof.
  intros H Hid Hm. unfold validatePostPararmsForSubmit.
  change (pname "descriptor_id") with "descriptor_id".
  change requiredFields with submit_required.
  rewrite (run_bind_ret _ _ _ _ _ (run_dget p d _ w H)).
  fold (present d "descriptor_id"). rewrite Hid.
  rewrite (run_bind_ret _ _ _ _ _
             (run_for_eachM_dget p d w
                (fun v f => if is_none v then Some f else None) _ H)).
  rewrite not_none_missing. fold (missing_fields d). now rewrite Hm.
Qed.








(** ** Further properties of [getInfoForIDs] *)

Lemma check_ids_malformed E pre s post :
  forallb (accepted_id E) pre = true -> py_int E s = None ->
  for_each (check_id E) (pre ++ JStr s :: post)
  = Raise (Exception ("Malformed descriptor ID " ++ dquote ++ s ++ dquote)).
Proof.
  intros Hpre Hs. induction pre as [|v pre IH]; simpl.
  - now rewrite Hs.
  - simpl in Hpre. apply andb_true_iff in Hpre as [Hv Hpre].
    unfold accepted_id in Hv. destruct v as [| | |t| |]; try discriminate.
    simpl. destruct (py_int E t); [|discriminate]. simpl.
    now rewrite (IH Hpre).
Qed.

(** X7.  When the first id that is not a string of an integer is a
    string that [int] rejects, [getInfoForIDs] raises the
    malformed-descriptor-id exception that quotes this id, and no
    request is made. *)
Theorem getInfoForIDs_malformed (E : Env) (pre post : list json) (s : string)
  (incl : bool) (w : world) :
  forallb (accepted_id E) pre = true ->
  py_int E s = None ->
  getInfoForIDs E (pre ++ JStr s :: post) incl w
  = (Raise (Exception ("Malformed descriptor ID " ++ dquote ++ s ++ dquote)),
     w).
Proof.
  intros Hpre Hs. unfold getInfoForIDs.
  unfold mbind at 1, M_bind, lift.
  now rewrite (check_ids_malformed E pre s post Hpre Hs).
Qed.

Lemma getInfoForIDs_malformed_witness :
  getInfoForIDs (Fixture.env [HttpResponse (Some (JObj []))])
    [JStr "123"; JStr "12x"; JStr "456"] true Fixture.empty_world
  = (Raise (Exception ("Malformed descriptor ID " ++ dquote ++ "12x" ++ dquote)),
     Fixture.empty_world).
Proof.
  apply (getInfoForIDs_malformed (Fixture.env [HttpResponse (Some (JObj []))])
           [JStr "123"] [JStr "456"] "12x" true Fixture.empty_world);
    reflexivity.
Defined.

Lemma normalize_description_not_none d :
  is_none (Dict.get (normalize_description d) "description") = false.
Proof.
  unfold normalize_description.
  destruct (is_none (Dict.get d "description")) eqn:Hn; [|assumption].
  now rewrite DictFacts.get_set_eq.
Qed.

Lemma lookup_normalize_description_ne k d :
  k <> "description" ->
  Dict.lookup k (normalize_description d) = Dict.lookup k d.
Proof.
  intros Hk. unfold normalize_description.
  destruct (is_none (Dict.get d "description")); [|reflexivity].
  apply DictFacts.lookup_set_ne. congruence.
Qed.

Lemma getInfoForIDs_item_normalized incl x y :
  getInfoForIDs_item incl x = Ret y -> normalized incl y.
Proof.
  unfold getInfoForIDs_item. intros H.
  apply inv_obind in H as (x1 & Hdel & H).
  apply inv_obind in H as (x2 & Htags & H).
  unfold normalize_tags in Htags.
  apply inv_obind in Htags as (t1 & _ & Htags).
  apply inv_obind in Htags as (t2 & _ & Htags).
  apply inv_obind in Htags as (items & _ & Htags).
  apply inv_obind in Htags as (texts & _ & Htags).
  apply inv_obind in Htags as (sorted & _ & Htags).
  destruct x1 as [| | | | |d1]; try discriminate.
  inversion Htags; subst. simpl in H. inversion H; subst.
  exists (normalize_description (Dict.set "tags" (JArr sorted) d1)), sorted.
  split; [reflexivity|]. split; [|split].
  - now rewrite lookup_tags_normalize_description, DictFacts.lookup_set_eq.
  - apply normalize_description_not_none.
  - intros ->. simpl in Hdel.
    destruct x as [| | | | |d]; try discriminate. simpl in Hdel.
    destruct (Dict.mem "raw_indicator" d); [|discriminate].
    inversion Hdel; subst.
    rewrite lookup_normalize_description_ne by discriminate.
    rewrite DictFacts.lookup_set_ne by discriminate.
    apply DictFacts.lookup_remove_eq.
Qed.

(** X8.  Every descriptor that [getInfoForIDs] returns is an object
    whose [tags] is a list and whose [description] is not null, and
    without [raw_indicator] when the indicator is not to be in the
    output. *)
Theorem getInfoForIDs_normalized (E : Env) (ids : list json) (incl : bool)
  (w w' : world) (descriptors : list json) :
  getInfoForIDs E ids incl w = (Ret descriptors, w') ->
  Forall (normalized incl) descriptors.
Proof.
  unfold getInfoForIDs. intros H.
  apply inv_bind in H as (? & ? & _ & H).
  apply inv_bind in H as (? & ? & _ & H).
  apply inv_bind in H as (? & ? & _ & H).
  apply inv_bind in H as (? & ? & _ & H).
  apply inv_bind in H as (items & ? & _ & H).
  apply inv_lift in H as [H _].
  apply (for_each_Forall _ (normalized incl) _
           (fun kv y => getInfoForIDs_item_normalized incl (snd kv) y) _ H).
Qed.

Lemma getInfoForIDs_normalized_witness :
  Forall (normalized false)
    [ JObj [ ("reactions", JObj [("1234567", JArr [JStr "HELPFUL"])]);
             ("tags", JArr []);
             ("description", JStr EmptyString) ] ].
Proof.
  apply (getInfoForIDs_normalized
           (Fixture.env [HttpResponse (Some Fixture.source_reply)])
           [JStr "123"] false Fixture.empty_world
           (snd (getInfoForIDs
                   (Fixture.env [HttpResponse (Some Fixture.source_reply)])
                   [JStr "123"] false Fixture.empty_world))).
  vm_compute. reflexivity.
Defined.

(** ** Further properties of the paginator *)

Section Chain.

Context (E : Env) (o : tag_options).

(** One round of the loop on a page in the documented format. *)
Lemma tagged_pages_loop_step fuel start idx w r :
  well_formed_page r = true ->
  server E (length (requests w)) (get_request start) = HttpResponse (Some r) ->
  tagged_pages_loop E (S fuel) o (JStr start) idx w
  = tagged_pages_loop E fuel o
      (match page_next r with Some v => v | None => JNull end) (idx + 1)
      (World (requests w ++ [get_request start])
             (callbacks w ++ [descriptor_ids (page_items r)])
             (heap w)).
Proof.
  intros Hwf Hsrv.
  destruct (well_formed_page_inv r Hwf) as (Hdata & Hitems & Hnext).
  cbn [tagged_pages_loop is_none].
  rewrite (run_bind_ret _ _ _ _ _ (getJSONFromURL_response E start w r Hsrv)).
  rewrite (run_bind_lift _ _ _ _ Hdata).
  rewrite (run_bind_lift _ _ _ _ Hnext).
  rewrite (run_bind_lift _ _ _ _ (page_ids_spec _ _ Hitems)).
  reflexivity.
Qed.

(** A chain of pages, each linked to the next. *)
Lemma tagged_pages_loop_chain pages : forall start fuel idx w,
  chained_pages pages = true ->
  serves E (length (requests w)) (page_urls start pages) pages ->
  tagged_pages_loop E (length pages + fuel) o (JStr start) idx w
  = tagged_pages_loop E fuel o (JStr (last_link start pages))
      (idx + Z.of_nat (length pages))
      (World (requests w ++ map get_request (page_urls start pages))
             (callbacks w
              ++ map (fun r => descriptor_ids (page_items r)) pages)
             (heap w)).
Proof.
  induction pages as [|r rest IH]; intros start fuel idx w Hc Hs.
  - cbn [length page_urls map last_link Nat.add]. rewrite !app_nil_r, Z.add_0_r.
    now destruct w.
  - cbn [chained_pages] in Hc. apply andb_true_iff in Hc as [Hwf Hc].
    cbn [page_urls serves] in Hs. destruct Hs as [Hsrv Hs].
    cbn [length Nat.add page_urls last_link map].
    rewrite (tagged_pages_loop_step _ start idx w r Hwf Hsrv).
    destruct (page_next r) as [[| | |u| |]|]; try discriminate.
    rewrite IH; [|assumption|].
    + cbn [requests callbacks heap]. rewrite <- !app_assoc.
      f_equal. lia.
    + cbn [requests]. rewrite length_app. simpl.
      now replace (length (requests w) + 1)%nat with (S (length (requests w)))
        by lia.
Qed.

End Chain.

(** X9.  When the fetch of the page after a chain of linked pages fails
    with an error that is not retried, [processDescriptorIDsByTagID]
    raises that error, and by then the callback has been invoked for
    each page of the chain, in order: the pages before the failure are
    delivered, the failure is not swallowed. *)
Theorem processDescriptorIDsByTagID_failure (E : Env) (fuel : nat)
  (tagID : string) (o : tag_options) (start : string) (pages : list json)
  (e : exn) (w : world) :
  tagged_objects_url E tagID o = Ret start ->
  chained_pages pages = true ->
  serves E (length (requests w)) (page_urls start pages) pages ->
  server_error
    (server E (length (requests w) + length pages)
       (get_request (last_link start pages))) = false ->
  fetch_result
    (server E (length (requests w) + length pages)
       (get_request (last_link start pages))) = Raise e ->
  (length pages < fuel)%nat ->
  processDescriptorIDsByTagID E fuel tagID o w
  = (Raise e,
     World (requests w
            ++ map get_request (page_urls start pages ++ [last_link start pages]))
           (callbacks w ++ map (fun r => descriptor_ids (page_items r)) pages)
           (heap w)).
Proof.
  intros Hurl Hc Hs Herr Hres Hf. unfold processDescriptorIDsByTagID.
  rewrite (run_bind_lift _ _ _ _ Hurl).
  replace fuel with (length pages + S (fuel - length pages - 1))%nat by lia.
  rewrite (tagged_pages_loop_chain E o pages start _ 0 w Hc Hs).
  cbn [tagged_pages_loop is_none]. unfold mbind at 1, M_bind.
  unfold getJSONFromURL. rewrite loop_end.
  - cbn [requests]. rewrite length_app, length_map.
    assert (Hlen : length (page_urls start pages) = length pages).
    { clear -Hc. revert start. induction pages as [|r rest IH]; intros start;
        [reflexivity|].
      cbn [chained_pages] in Hc. apply andb_true_iff in Hc as [_ Hc].
      cbn [page_urls length]. destruct (page_next r) as [[| | |u| |]|];
        try discriminate. now rewrite IH. }
    rewrite Hlen, Hres. unfold add_requests. cbn [requests callbacks heap].
    now rewrite map_app, app_assoc.
  - left. cbn [requests]. rewrite length_app, length_map.
    assert (Hlen : length (page_urls start pages) = length pages).
    { clear -Hc. revert start. induction pages as [|r rest IH]; intros start;
        [reflexivity|].
      cbn [chained_pages] in Hc. apply andb_true_iff in Hc as [_ Hc].
      cbn [page_urls length]. destruct (page_next r) as [[| | |u| |]|];
        try discriminate. now rewrite IH. }
    now rewrite Hlen.
Qed.

Lemma processDescriptorIDsByTagID_failure_witness :
  let E := Fixture.env [ HttpResponse (Some Fixture.page_one);
                         HttpFailure 404 None ] in
  let run := processDescriptorIDsByTagID E 5 "9999338387644295"
               default_tag_options Fixture.empty_world in
  fst run = Raise (HTTPError 404 None)
  /\ callbacks (snd run) = [ [JStr "1"; JStr "3"] ].
Proof.
  intros E run. subst run.
  rewrite (processDescriptorIDsByTagID_failure E 5 "9999338387644295"
             default_tag_options
             "https://graph.facebook.com/v6.0/9999338387644295/tagged_objects/?access_token=TOKEN&limit=10"
             [Fixture.page_one] (HTTPError 404 None) Fixture.empty_world).
  - split; reflexivity.
  - reflexivity.
  - reflexivity.
  - simpl. split; [reflexivity|exact I].
  - reflexivity.
  - reflexivity.
  - simpl. lia.
Defined.

Lemma tagged_pages_loop_unbounded E o r u :
  well_formed_page r = true -> page_next r = Some (JStr u) ->
  (forall n req, server E n req = HttpResponse (Some r)) ->
  forall fuel start idx w,
    fst (tagged_pages_loop E fuel o (JStr start) idx w) = OutOfFuel
    /\ length (callbacks (snd (tagged_pages_loop E fuel o (JStr start) idx w)))
       = (length (callbacks w) + fuel)%nat.
Proof.
  intros Hwf Hnext Hsrv. induction fuel as [|fuel IH]; intros start idx w.
  - simpl. split; [reflexivity|lia].
  - rewrite (tagged_pages_loop_step E o fuel start idx w r Hwf (Hsrv _ _)).
    rewrite Hnext. destruct (IH u (idx + 1)
      (World (requests w ++ [get_request start])
             (callbacks w ++ [descriptor_ids (page_items r)]) (heap w)))
      as [Hf Hl].
    split; [assumption|]. rewrite Hl. cbn [callbacks].
    rewrite length_app. simpl. lia.
Qed.

(** X10.  Pagination has no page bound of its own: against a server
    whose every reply links to a further page, the loop is still running
    after any number of rounds, with one callback invocation per round. *)
Theorem processDescriptorIDsByTagID_unbounded (E : Env) (tagID : string)
  (o : tag_options) (start u : string) (r : json) (w : world) (fuel : nat) :
  tagged_objects_url E tagID o = Ret start ->
  well_formed_page r = true ->
  page_next r = Some (JStr u) ->
  (forall n req, server E n req = HttpResponse (Some r)) ->
  fst (processDescriptorIDsByTagID E fuel tagID o w) = OutOfFuel
  /\ length (callbacks (snd (processDescriptorIDsByTagID E fuel tagID o w)))
     = (length (callbacks w) + fuel)%nat.
Proof.
  intros Hurl Hwf Hnext Hsrv. unfold processDescriptorIDsByTagID.
  rewrite (run_bind_lift _ _ _ _ Hurl).
  apply (tagged_pages_loop_unbounded E o r u Hwf Hnext Hsrv).
Qed.

Lemma processDescriptorIDsByTagID_unbounded_witness :
  let E := {| TE_BASE_URL := DEFAULT_TE_BASE_URL;
              APP_TOKEN := Some "TOKEN";
              server := fun _ _ => HttpResponse (Some Fixture.page_one);
              quote := fun s => s;
              py_str := Fixture.str_of;
              urlencode := fun _ => EmptyString;
              py_int := Fixture.int_of_string;
              strptime_timestamp := fun _ _ => Raise ValueError;
              now_minus := fun n => Ret (1600000000 - n) |} in
  fst (processDescriptorIDsByTagID E 7 "9999338387644295" default_tag_options
         Fixture.empty_world) = OutOfFuel
  /\ length (callbacks
               (snd (processDescriptorIDsByTagID E 7 "9999338387644295"
                       default_tag_options Fixture.empty_world)))
     = (length (callbacks Fixture.empty_world) + 7)%nat.
Proof.
  intros E.
  apply (processDescriptorIDsByTagID_unbounded E "9999338387644295"
           default_tag_options
           "https://graph.facebook.com/v6.0/9999338387644295/tagged_objects/?access_token=TOKEN&limit=10"
           "https://next.example/page2" Fixture.page_one Fixture.empty_world 7).
  - reflexivity.
  - reflexivity.
  - reflexivity.
  - intros n req. reflexivity.
Defined.

(** X11.  A time filter that is given but is not a string (an epoch
    number, say) makes [processDescriptorIDsByTagID] raise [TypeError]
    before any request or callback. *)
Theorem processDescriptorIDsByTagID_filter_type (E : Env) (fuel : nat)
  (tagID : string) (o : tag_options) (w : world) :
  (is_none (taggedSince o) = false /\ forall s, taggedSince o <> JStr s)
  \/ (is_none (taggedUntil o) = false /\ forall s, taggedUntil o <> JStr s) ->
  processDescriptorIDsByTagID E fuel tagID o w = (Raise TypeError, w).
Proof.
  intros Hbad. unfold processDescriptorIDsByTagID.
  assert (Hurl : tagged_objects_url E tagID o = Raise TypeError).
  { unfold tagged_objects_url, app_token.
    destruct (APP_TOKEN E) as [token|]; [|reflexivity]. simpl.
    destruct Hbad as [[Hn Hs]|[Hn Hs]].
    - rewrite Hn. simpl.
      destruct (taggedSince o) as [| | |s| |]; try reflexivity.
      now contradiction (Hs s).
    - destruct (taggedSince o) as [| | |s0| |]; simpl; try reflexivity;
        rewrite Hn; simpl;
        destruct (taggedUntil o) as [| | |s| |]; try reflexivity;
        now contradiction (Hs s). }
  unfold mbind, M_bind, lift. now rewrite Hurl.
Qed.

Lemma processDescriptorIDsByTagID_filter_type_witness :
  processDescriptorIDsByTagID (Fixture.env [HttpResponse (Some Fixture.page_two)])
    3 "9999338387644295"
    (TagOptions false false true (JNum 10) (JNum 1591626448) JNull)
    Fixture.empty_world
  = (Raise TypeError, Fixture.empty_world).
Proof.
  apply (processDescriptorIDsByTagID_filter_type
           (Fixture.env [HttpResponse (Some Fixture.page_two)]) 3
           "9999338387644295"
           (TagOptions false false true (JNum 10) (JNum 1591626448) JNull)
           Fixture.empty_world).
  left. split; [reflexivity|]. intros s. discriminate.
Defined.

(** ** Power search *)

Lemma doPowerSearch_item_normalizes incl item :
  well_formed_descriptor incl item = true ->
  exists out, doPowerSearch_item incl item = Ret out /\ normalizes incl item out.
Proof.
  unfold well_formed_descriptor. destruct item as [| | | | |d]; try discriminate.
  destruct (tag_texts d) as [texts|] eqn:Ht; [|discriminate].
  intros Hname. simpl in Hname.
  destruct (py_sorted_strings texts) as (sorted & Hsort & Hs & Hp).
  unfold doPowerSearch_item.
  destruct incl; simpl.
  - rewrite (normalize_tags_with d texts sorted Ht Hsort). simpl.
    eexists. split; [reflexivity|].
    exists d. eexists. exists texts, sorted.
    repeat split; auto.
    + now rewrite lookup_tags_normalize_description, DictFacts.lookup_set_eq.
    + apply normalize_description_not_none.
    + rewrite lookup_normalize_description_ne by discriminate.
      now rewrite DictFacts.lookup_set_ne by discriminate.
    + intros k Hk1 Hk2 _.
      rewrite lookup_normalize_description_ne by assumption.
      apply DictFacts.lookup_set_ne. congruence.
  - simpl in Hname. rewrite Hname. simpl.
    assert (Ht' : tag_texts (Dict.remove "name" d) = Some texts)
      by (now rewrite tag_texts_remove).
    rewrite (normalize_tags_with _ texts sorted Ht' Hsort). simpl.
    eexists. split; [reflexivity|].
    exists d. eexists. exists texts, sorted.
    repeat split; auto.
    + now rewrite lookup_tags_normalize_description, DictFacts.lookup_set_eq.
    + apply normalize_description_not_none.
    + rewrite lookup_normalize_description_ne by discriminate.
      rewrite DictFacts.lookup_set_ne by discriminate.
      apply DictFacts.lookup_remove_eq.
    + intros k Hk1 Hk2 Hk3.
      rewrite lookup_normalize_description_ne by assumption.
      rewrite DictFacts.lookup_set_ne by congruence.
      apply DictFacts.lookup_remove_ne. congruence.
Qed.

Lemma for_each_doPowerSearch_item incl items :
  forallb (well_formed_descriptor incl) items = true ->
  exists batch,
    for_each (doPowerSearch_item incl) items = Ret batch
    /\ Forall2 (normalizes incl) items batch.
Proof.
  induction items as [|item items IH]; intros H.
  - exists []. split; [reflexivity|constructor].
  - simpl in H. apply andb_true_iff in H as [Hi Hr].
    destruct (doPowerSearch_item_normalizes incl item Hi) as (out & Hout & Hn).
    destruct (IH Hr) as (batch & Hb & Hf).
    exists (out :: batch). simpl. rewrite Hout. simpl. rewrite Hb. simpl.
    split; [reflexivity|now constructor].
Qed.

Lemma well_formed_search_page_inv incl r :
  well_formed_search_page incl r = true ->
  py_getitem r "data" = Ret (JArr (page_items r))
  /\ forallb (well_formed_descriptor incl) (page_items r) = true
  /\ next_url r
     = Ret (match page_next r with Some v => v | None => JNull end).
Proof.
  unfold well_formed_search_page, page_items, page_next, next_url, field.
  destruct r as [| | | | |d]; try discriminate. simpl.
  destruct (Dict.lookup "data" d) as [[| | | |items|]|] eqn:Hd;
    try discriminate.
  simpl. unfold Dict.mem.
  destruct (Dict.lookup "paging" d) as [paging|] eqn:Hp.
  - destruct paging as [| | | | |pg]; rewrite ?andb_false_r;
      try discriminate.
    rewrite andb_true_r. intros H. repeat split; auto.
    simpl. unfold Dict.mem. now destruct (Dict.lookup "next" pg).
  - rewrite andb_true_r. intros H. repeat split; auto.
Qed.

Lemma power_search_loop_pages E incl pages : forall start fuel idx w,
  linked_search_pages incl pages = true ->
  serves E (length (requests w)) (page_urls start pages) pages ->
  (length pages <= fuel)%nat ->
  exists batches,
    power_search_loop E fuel incl (JStr start) idx w
    = (Ret (),
       World (requests w ++ map get_request (page_urls start pages))
             (callbacks w ++ batches) (heap w))
    /\ Forall2 (fun r batch => Forall2 (normalizes incl) (page_items r) batch)
         pages batches.
Proof.
  induction pages as [|r rest IH]; intros start fuel idx w Hl Hs Hf;
    [discriminate|].
  cbn [linked_search_pages] in Hl. apply andb_true_iff in Hl as [Hwf Hl].
  destruct (well_formed_search_page_inv incl r Hwf) as (Hdata & Hitems & Hnext).
  destruct (for_each_doPowerSearch_item incl _ Hitems) as (batch & Hb & Hn).
  destruct fuel as [|fuel]; [simpl in Hf; lia|].
  cbn [page_urls serves] in Hs. destruct Hs as [Hsrv Hs].
  cbn [power_search_loop is_none].
  rewrite (run_bind_ret _ _ _ _ _ (getJSONFromURL_response E start w r Hsrv)).
  rewrite (run_bind_lift _ _ _ _ Hdata).
  rewrite (run_bind_lift _ _ _ _ Hnext).
  rewrite (run_bind_lift _ _ _ (page_items r) eq_refl).
  rewrite (run_bind_lift _ _ _ _ Hb).
  unfold mbind at 1, M_bind, invoke_callback.
  cbn [requests callbacks heap add_requests page_urls map].
  destruct rest as [|r' rest'].
  - destruct (page_next r) as [v|] eqn:Hnx; [discriminate|].
    exists [batch]. split; [|repeat constructor; assumption].
    cbn. destruct fuel; reflexivity.
  - destruct (page_next r) as [[| | |u'| |]|] eqn:Hnx; try discriminate.
    destruct (IH u' fuel (idx + 1)
                (World (requests w ++ [get_request start])
                       (callbacks w ++ [batch]) (heap w)))
      as (batches & Hrun & Hall); [assumption| |simpl in *; lia|].
    + cbn [requests]. rewrite length_app. simpl.
      now replace (length (requests w) + 1)%nat with (S (length (requests w)))
        by lia.
    + exists (batch :: batches). split; [|now constructor].
      rewrite Hrun. cbn [requests callbacks heap]. now rewrite <- !app_assoc.
Qed.

(** X12.  When the server answers the power search and then each
    [paging.next] link with the next of the pages [pages], the last one
    without a link, and every item has null, absent or well-formed tags
    (and a [name] when the indicator is to be stripped),
    [doPowerSearch] returns after invoking the callback once per page, in
    page order, each time with one descriptor per item of the page, in
    order: the item with its tags replaced by the sorted tag texts, a
    description that is not null, the [name] deleted when the indicator
    is stripped, and every other field as it was. *)
Theorem doPowerSearch_pages (E : Env) (fuel : nat) (urlParams : dict)
  (incl : bool) (start : string) (pages : list json) (w : world) :
  power_search_url E urlParams = Ret start ->
  linked_search_pages incl pages = true ->
  serves E (length (requests w)) (page_urls start pages) pages ->
  (length pages <= fuel)%nat ->
  exists batches,
    doPowerSearch E fuel urlParams incl w
    = (Ret (),
       World (requests w ++ map get_request (page_urls start pages))
             (callbacks w ++ batches) (heap w))
    /\ Forall2 (fun r batch => Forall2 (normalizes incl) (page_items r) batch)
         pages batches.
Proof.
  intros Hurl Hl Hs Hf. unfold doPowerSearch.
  rewrite (run_bind_lift _ _ _ _ Hurl).
  apply (power_search_loop_pages E incl pages start fuel 0 w Hl Hs Hf).
Qed.

Lemma doPowerSearch_pages_witness :
  exists batches,
    doPowerSearch
      (Fixture.env
         [HttpResponse
            (Some (JObj [("data", JArr [JObj Fixture.tagged_descriptor])]))])
      1 [("text", JStr "abc")] false Fixture.empty_world
    = (Ret (),
       World
         (requests Fixture.empty_world
          ++ map get_request
               (page_urls
                  (DEFAULT_TE_BASE_URL ++ "/threat_descriptors/?access_token=TOKEN"
                   ++ descriptor_fields ++ "&text=abc")
                  [JObj [("data", JArr [JObj Fixture.tagged_descriptor])]]))
         (callbacks Fixture.empty_world ++ batches)
         (heap Fixture.empty_world))
    /\ Forall2
         (fun r batch => Forall2 (normalizes false) (page_items r) batch)
         [JObj [("data", JArr [JObj Fixture.tagged_descriptor])]] batches.
Proof.
  apply (doPowerSearch_pages
           (Fixture.env
              [HttpResponse
                 (Some (JObj [("data", JArr [JObj Fixture.tagged_descriptor])]))])
           1 [("text", JStr "abc")] false
           (DEFAULT_TE_BASE_URL ++ "/threat_descriptors/?access_token=TOKEN"
            ++ descriptor_fields ++ "&text=abc")
           [JObj [("data", JArr [JObj Fixture.tagged_descriptor])]]
           Fixture.empty_world).
  - reflexivity.
  - reflexivity.
  - simpl. split; [reflexivity|exact I].
  - simpl. lia.
Defined.

(** ** Further properties of the time parser *)

Lemma span_digits_app ds r :
  all_digits ds = true ->
  match r with String a _ => is_digit a = false | EmptyString => True end ->
  span_digits (ds ++ r) = (ds, r).
Proof.
  intros Hds Hr. induction ds as [|a ds IH]; simpl in *.
  - destruct r as [|a r]; [reflexivity|]. simpl. now rewrite Hr.
  - apply andb_true_iff in Hds as [Ha Hds]. rewrite Ha. now rewrite (IH Hds).
Qed.

Lemma parse_relative_form E unit seconds ds r :
  ds <> EmptyString -> all_digits ds = true ->
  match r with String a _ => is_digit a = false | EmptyString => True end ->
  parse_relative E unit seconds ("-" ++ ds ++ r)
  = match strip_prefix unit r with
    | Some rest =>
        if at_dollar (match strip_prefix "s" rest with
                      | Some rest' => rest'
                      | None => rest
                      end)
        then match py_int E ds with
             | Some count => t ← now_minus E (count * seconds); Ret (Some t)
             | None => Raise ValueError
             end
        else Ret None
    | None => Ret None
    end.
Proof.
  intros Hne Hds Hr. unfold parse_relative, match_relative.
  change ("-" ++ ds ++ r)%string with (String "-" (ds ++ r)).
  cbv beta iota. rewrite (span_digits_app ds r Hds Hr).
  destruct ds as [|a ds]; [contradiction|].
  destruct (strip_prefix unit r) as [rest|]; [|reflexivity].
  now destruct (at_dollar _).
Qed.

(** X13.  A string made of a minus sign, one or more decimal digits and
    one of the words minute, hour, day, week, singular or plural, that
    is neither an integer to [int] nor a datetime to [strptime], parses
    to the time that many units before now: 60, 3600, 86400 and 604800
    seconds to the unit. *)
Theorem relative_time_value (E : Env) (digits unit plural : string)
  (seconds count : Z) :
  In (unit, seconds) unit_seconds ->
  digits <> EmptyString -> all_digits digits = true ->
  plural = EmptyString \/ plural = "s" ->
  py_int E ("-" ++ digits ++ unit ++ plural) = None ->
  no_datetime_format E ("-" ++ digits ++ unit ++ plural) ->
  py_int E digits = Some count ->
  parseTimeStringToEpochSeconds E ("-" ++ digits ++ unit ++ plural)
  = (t ← now_minus E (count * seconds); Ret (Some t)).
Proof.
  intros Hu Hne Hds Hpl Hint Hfmt Hcount.
  unfold parseTimeStringToEpochSeconds, _parseIntStringToEpochSeconds.
  rewrite Hint. cbn [mbind outcome_bind].
  unfold _parseDateTimeStringToEpochSeconds.
  rewrite (try_formats_unmatched E _ DATETIME_FORMATS Hfmt).
  cbn [mbind outcome_bind].
  unfold _parseRelativeStringToEpochSeconds, _parseRelativeStringMinute,
    _parseRelativeStringHour, _parseRelativeStringDay,
    _parseRelativeStringWeek.
  simpl in Hu.
  destruct Hu as [[= <- <-]|[[= <- <-]|[[= <- <-]|[[= <- <-]|[]]]]],
           Hpl as [->| ->];
    rewrite !parse_relative_form by (assumption || reflexivity);
    cbn [strip_prefix Ascii.eqb Bool.eqb at_dollar String.eqb orb append];
    rewrite ?Hcount;
    destruct (now_minus E _); reflexivity.
Qed.

Lemma relative_time_value_witness :
  parseTimeStringToEpochSeconds (Fixture.env []) "-3hours"
  = Ret (Some (1600000000 - 3 * 3600)).
Proof.
  apply (relative_time_value (Fixture.env []) "3" "hour" "s" 3600 3).
  - simpl. auto.
  - discriminate.
  - reflexivity.
  - now right.
  - reflexivity.
  - intros fmt _. reflexivity.
  - reflexivity.
Defined.

Lemma try_formats_first E s pre fmt post :
  (forall f, In f pre -> strptime_timestamp E s f = Raise ValueError) ->
  strptime_timestamp E s fmt <> Raise ValueError ->
  try_formats E s (pre ++ fmt :: post)%list
  = (t ← strptime_timestamp E s fmt; Ret (Some t)).
Proof.
  intros Hpre Hfmt. induction pre as [|f pre IH].
  - simpl. unfold _parseDateTimeStringSingleFormat.
    destruct (strptime_timestamp E s fmt) as [t|e|]; try reflexivity.
    destruct e; try reflexivity. now contradiction Hfmt.
  - simpl. unfold _parseDateTimeStringSingleFormat at 1.
    rewrite (Hpre f (or_introl eq_refl)). simpl. apply IH.
    intros g Hg. apply Hpre. now right.
Qed.

(** X14.  The datetime formats are tried in their listed order and the
    first that [strptime] does not reject decides: when [int] rejects the
    string and [strptime] rejects it with [ValueError] under every
    format listed before [fmt], the parse is what [strptime] gives under
    [fmt], a timestamp or an exception other than [ValueError], which is
    not caught. *)
Theorem datetime_format_priority (E : Env) (s fmt : string)
  (pre post : list string) :
  DATETIME_FORMATS = (pre ++ fmt :: post)%list ->
  py_int E s = None ->
  (forall f, In f pre -> strptime_timestamp E s f = Raise ValueError) ->
  strptime_timestamp E s fmt <> Raise ValueError ->
  parseTimeStringToEpochSeconds E s
  = (t ← strptime_timestamp E s fmt; Ret (Some t)).
Proof.
  intros Hsplit Hint Hpre Hfmt.
  unfold parseTimeStringToEpochSeconds, _parseIntStringToEpochSeconds.
  rewrite Hint. cbn [mbind outcome_bind].
  unfold _parseDateTimeStringToEpochSeconds. rewrite Hsplit.
  rewrite (try_formats_first E s pre fmt post Hpre Hfmt).
  destruct (strptime_timestamp E s fmt) as [t|e|]; reflexivity.
Qed.

Lemma datetime_format_priority_witness :
  let E := {| TE_BASE_URL := DEFAULT_TE_BASE_URL;
              APP_TOKEN := Some "TOKEN";
              server := fun _ _ => ConnectionFailure;
              quote := fun s => s;
              py_str := Fixture.str_of;
              urlencode := fun _ => EmptyString;
              py_int := Fixture.int_of_string;
              strptime_timestamp := fun s fmt =>
                if String.eqb fmt "%Y-%m-%dT%H:%M:%SZ" then Ret 1591626473
                else Raise ValueError;
              now_minus := fun n => Ret (1600000000 - n) |} in
  parseTimeStringToEpochSeconds E "2020-06-08T14:27:53Z" = Ret (Some 1591626473).
Proof.
  intros E.
  apply (datetime_format_priority E "2020-06-08T14:27:53Z" "%Y-%m-%dT%H:%M:%SZ"
           [ "%Y-%m-%dT%H:%M:%S%z"; "%Y-%m-%d %H:%M:%S"; "%Y/%m/%d %H:%M:%S";
             "%Y-%m-%dT%H:%M:%S" ] []).
  - reflexivity.
  - reflexivity.
  - intros f Hf. simpl in Hf.
    destruct Hf as [<-|[<-|[<-|[<-|[]]]]]; reflexivity.
  - discriminate.
Defined.

(** ** Further properties of the copy payload *)

Lemma lookup_None_keys k d :
  Dict.lookup k d = None <-> ~ In k (Dict.keys d).
Proof.
  induction d as [|[k' v] d IH]; simpl.
  - split; [intros _ []|reflexivity].
  - destruct (String.eqb_spec k k') as [->|Hne].
    + split; [discriminate|]. intros H. contradict H. now left.
    + rewrite IH. split.
      * intros H [Heq|Hin]; [congruence|contradiction].
      * intros H Hin. apply H. now right.
Qed.

Lemma keys_remove_In k x d :
  In x (Dict.keys (Dict.remove k d)) -> In x (Dict.keys d).
Proof.
  induction d as [|[k' v] d IH]; simpl; [easy|].
  destruct (String.eqb k k'); simpl; intuition.
Qed.

Lemma keys_remove_NoDup k d :
  List.NoDup (Dict.keys d) -> List.NoDup (Dict.keys (Dict.remove k d)).
Proof.
  induction d as [|[k' v] d IH]; simpl; intros H; [constructor|].
  apply List.NoDup_cons_iff in H as [Hnin Hd].
  destruct (String.eqb k k'); [now apply IH|].
  simpl. apply List.NoDup_cons_iff. split; [|now apply IH].
  intros Hin. apply Hnin. now apply (keys_remove_In k).
Qed.

Lemma lookup_update_notin k other : forall d,
  Dict.lookup k other = None ->
  Dict.lookup k (Dict.update d other) = Dict.lookup k d.
Proof.
  unfold Dict.update.
  induction other as [|[k' v'] other IH]; intros d H; [reflexivity|].
  simpl in *. destruct (String.eqb_spec k k') as [->|Hne]; [discriminate|].
  rewrite (IH _ H). apply DictFacts.lookup_set_ne. congruence.
Qed.

Lemma lookup_update_in k v other : forall d,
  List.NoDup (Dict.keys other) ->
  Dict.lookup k other = Some v ->
  Dict.lookup k (Dict.update d other) = Some v.
Proof.
  induction other as [|[k' v'] other IH]; intros d Hnd H; [discriminate|].
  simpl in Hnd. apply List.NoDup_cons_iff in Hnd as [Hnin Hnd].
  simpl in H. change (Dict.update d ((k', v') :: other))
    with (Dict.update (Dict.set k' v' d) other).
  destruct (String.eqb_spec k k') as [->|Hne].
  - inversion H; subst.
    rewrite lookup_update_notin by (now apply lookup_None_keys).
    apply DictFacts.lookup_set_eq.
  - now apply IH.
Qed.

Lemma mem_filter_keys keep k d :
  Dict.mem k (Dict.filter_keys keep d) = true -> keep k = true.
Proof.
  unfold Dict.mem, Dict.filter_keys.
  induction d as [|[k' v] d IH]; simpl; [discriminate|].
  destruct (keep k') eqn:Hk; simpl; [|assumption].
  destruct (String.eqb_spec k k') as [->|Hne]; [now intros _|assumption].
Qed.

Lemma read_only_run {A : Type} (m : M A) w r w' :
  read_only m -> m w = (r, w') -> w' = w.
Proof. intros Hm H. specialize (Hm w). rewrite H in Hm. exact Hm. Qed.

(** X15.  Whatever the source descriptor is, the dict that
    [copyThreatDescriptor] builds for the submission has only recognized
    post-parameter names as keys (so no [raw_indicator]); every
    recognized field that the caller supplied, [descriptor_id] apart, is
    in it with the caller's value; and its [reactions] are the caller's,
    none when the caller gave none: the reactions of the source are
    never copied. *)
Theorem copy_payload_fields (E : Env) (p : loc) (d : dict) (showURLs : bool)
  (w w' : world) (payload : dict) :
  heap w !! p = Some d ->
  List.NoDup (Dict.keys d) ->
  copy_payload E p showURLs w = (Ret payload, w') ->
  (forall k, Dict.mem k payload = true -> recognized k = true)
  /\ (forall k v, k <> "descriptor_id" -> recognized k = true ->
        Dict.lookup k d = Some v -> Dict.lookup k payload = Some v)
  /\ Dict.lookup "reactions" payload = Dict.lookup "reactions" d
  /\ Dict.lookup "raw_indicator" payload = None.
Proof.
  intros Hheap Hnd H. unfold copy_payload in H.
  apply inv_bind in H as (d0 & w1 & Hread & H).
  rewrite (run_heap_read p d w Hheap) in Hread. inversion Hread; subst d0 w1.
  clear Hread.
  apply inv_bind in H as (sourceID & w2 & Hs & H). apply inv_lift in Hs as [_ ->].
  apply inv_bind in H as ([] & w3 & Hw & H).
  unfold heap_write in Hw. inversion Hw; subst w3. clear Hw.
  apply inv_bind in H as (descriptors & w4 & Hinfo & H).
  assert (Hh4 : heap w4 !! p = Some (Dict.remove "descriptor_id" d)).
  { pose proof (keeps_getInfoForIDs E p (Dict.remove "descriptor_id" d)
                  [sourceID] true) as Hk.
    specialize (Hk (World (requests w) (callbacks w)
                          (<[p := Dict.remove "descriptor_id" d]> (heap w)))
                   (list_lookup_insert_eq _ _ _ (lookup_lt_Some _ _ _ Hheap))).
    now rewrite Hinfo in Hk. }
  apply getInfoForIDs_has_tag_list in Hinfo.
  apply inv_bind in H as (source & w5 & Hsrc & H).
  destruct descriptors as [|x rest]; [discriminate|].
  inversion Hsrc; subst. inversion Hinfo as [|? ? (d0 & l & -> & Htags) _].
  subst.
  apply inv_bind in H as (raw & w6 & Hraw & H). apply inv_lift in Hraw as [Hraw ->].
  apply inv_bind in H as (n1 & w7 & Hn1 & H). apply inv_lift in Hn1 as [Hn1 ->].
  simpl in Hn1. inversion Hn1; subst. clear Hn1.
  apply inv_bind in H as (n2 & w8 & Hn2 & H). apply inv_lift in Hn2 as [Hn2 ->].
  simpl in Hn2.
  destruct (Dict.mem "raw_indicator" (Dict.set "indicator" raw d0));
    [|discriminate].
  inversion Hn2; subst. clear Hn2.
  set (d2 := Dict.remove "raw_indicator" (Dict.set "indicator" raw d0)) in *.
  apply inv_bind in H as (hasTags & w9 & Hc & H). apply inv_lift in Hc as [_ ->].
  apply inv_bind in H as (n3 & w10 & Hn3 & H).
  assert (Hn3' : w10 = w5 /\ exists d3, n3 = JObj d3
                 /\ (forall k, k <> "tags" -> Dict.lookup k d3 = Dict.lookup k d2)).
  { destruct hasTags.
    - apply inv_bind in Hn3 as (tags & w11 & Ht & Hn3).
      apply inv_lift in Ht as [_ ->].
      destruct (is_none tags).
      + apply inv_lift in Hn3 as [Hn3 ->]. simpl in Hn3.
        destruct (Dict.mem "tags" d2); [|discriminate].
        inversion Hn3. split; [reflexivity|]. eexists. split; [reflexivity|].
        intros k Hk. apply DictFacts.lookup_remove_ne. congruence.
      + inversion Hn3. split; [reflexivity|]. eexists. split; [reflexivity|].
        reflexivity.
    - inversion Hn3. split; [reflexivity|]. eexists. split; [reflexivity|].
      reflexivity. }
  destruct Hn3' as (-> & d3 & -> & Hd3).
  apply inv_bind in H as (hasR & w11 & Hc & H). apply inv_lift in Hc as [Hc ->].
  simpl in Hc. inversion Hc; subst hasR. clear Hc.
  apply inv_bind in H as (n4 & w12 & Hn4 & H).
  assert (Hn4' : w12 = w5 /\ exists d4, n4 = JObj d4
                 /\ Dict.lookup "reactions" d4 = None).
  { destruct (Dict.mem "reactions" d3) eqn:Hm.
    - apply inv_lift in Hn4 as [Hn4 ->]. simpl in Hn4. rewrite Hm in Hn4.
      inversion Hn4. split; [reflexivity|]. eexists. split; [reflexivity|].
      apply DictFacts.lookup_remove_eq.
    - inversion Hn4. split; [reflexivity|]. eexists. split; [reflexivity|].
      unfold Dict.mem in Hm. now destruct (Dict.lookup "reactions" d3). }
  destruct Hn4' as (-> & d4 & -> & Hreact).
  apply inv_bind in H as (overrides & w13 & Hov & H).
  rewrite (run_heap_read p _ w5 Hh4) in Hov. inversion Hov; subst overrides w13.
  clear Hov.
  apply inv_bind in H as (n5 & w14 & Hn5 & H). apply inv_lift in Hn5 as [Hn5 ->].
  simpl in Hn5. inversion Hn5; subst. clear Hn5.
  apply inv_bind in H as (items & w15 & Hit & H). apply inv_lift in Hit as [Hit ->].
  simpl in Hit. inversion Hit; subst. clear Hit.
  inversion H; subst. clear H.
  fold recognized.
  change (fun key : string =>
            match names_get POST_PARAM_NAMES key with
            | Some _ => true
            | None => false
            end) with recognized.
  assert (Hcaller : forall k v, k <> "descriptor_id" -> recognized k = true ->
            Dict.lookup k d = Some v ->
            Dict.lookup k
              (Dict.filter_keys recognized
                 (Dict.update d4 (Dict.remove "descriptor_id" d))) = Some v).
  { intros k v Hk Hrec Hl. rewrite lookup_filter_keys by assumption.
    apply lookup_update_in; [now apply keys_remove_NoDup|].
    rewrite DictFacts.lookup_remove_ne by congruence. assumption. }
  assert (Hkeys : forall k,
            Dict.mem k
              (Dict.filter_keys recognized
                 (Dict.update d4 (Dict.remove "descriptor_id" d))) = true ->
            recognized k = true).
  { intros k. apply mem_filter_keys. }
  split; [exact Hkeys|]. split; [exact Hcaller|]. split.
  - destruct (Dict.lookup "reactions" d) as [v|] eqn:Hr.
    + apply Hcaller; [discriminate|reflexivity|assumption].
    + rewrite lookup_filter_keys by reflexivity.
      rewrite lookup_update_notin; [assumption|].
      now rewrite DictFacts.lookup_remove_ne by discriminate.
  - specialize (Hkeys "raw_indicator"). unfold Dict.mem in Hkeys.
    destruct (Dict.lookup "raw_indicator" _); [|reflexivity].
    discriminate (Hkeys eq_refl).
Qed.

Lemma copy_payload_fields_witness :
  let payload :=
    [ ("tags", JArr []); ("description", JStr "d");
      ("indicator", JStr "abc"); ("privacy_type", JStr "HAS_WHITELIST");
      ("privacy_members", JStr "1064060413755420") ] in
  (forall k, Dict.mem k payload = true -> recognized k = true)
  /\ (forall k v, k <> "descriptor_id" -> recognized k = true ->
        Dict.lookup k Fixture.copy_params = Some v ->
        Dict.lookup k payload = Some v)
  /\ Dict.lookup "reactions" payload = Dict.lookup "reactions" Fixture.copy_params
  /\ Dict.lookup "raw_indicator" payload = None.
Proof.
  intros payload.
  apply (copy_payload_fields
           (Fixture.env [HttpResponse (Some Fixture.source_reply)])
           0%nat Fixture.copy_params false
           (Fixture.world_with Fixture.copy_params)
           (snd (copy_payload
                   (Fixture.env [HttpResponse (Some Fixture.source_reply)])
                   0%nat false (Fixture.world_with Fixture.copy_params)))
           payload).
  - reflexivity.
  - simpl. repeat (apply List.NoDup_cons; [simpl; intuition discriminate|]).
    apply List.NoDup_nil.
  - vm_compute. reflexivity.
Defined.

(** ** Descriptors of a well-formed reply *)

Lemma getInfoForIDs_item_normalizes incl item :
  well_formed_info incl item = true ->
  exists out,
    getInfoForIDs_item incl item = Ret out /\ info_normalizes incl item out.
Proof.
  unfold well_formed_info. destruct item as [| | | | |d]; try discriminate.
  destruct (tag_texts d) as [texts|] eqn:Ht; [|discriminate].
  intros Hraw. simpl in Hraw.
  destruct (py_sorted_strings texts) as (sorted & Hsort & Hs & Hp).
  unfold getInfoForIDs_item.
  destruct incl; simpl.
  - rewrite (normalize_tags_with d texts sorted Ht Hsort). simpl.
    eexists. split; [reflexivity|].
    exists d. eexists. exists texts, sorted.
    repeat split; auto.
    + now rewrite lookup_tags_normalize_description, DictFacts.lookup_set_eq.
    + apply normalize_description_not_none.
    + rewrite lookup_normalize_description_ne by discriminate.
      now rewrite DictFacts.lookup_set_ne by discriminate.
    + intros k Hk1 Hk2 _.
      rewrite lookup_normalize_description_ne by assumption.
      apply DictFacts.lookup_set_ne. congruence.
  - simpl in Hraw. rewrite Hraw. simpl.
    assert (Ht' : tag_texts (Dict.remove "raw_indicator" d) = Some texts)
      by (now rewrite tag_texts_remove).
    rewrite (normalize_tags_with _ texts sorted Ht' Hsort). simpl.
    eexists. split; [reflexivity|].
    exists d. eexists. exists texts, sorted.
    repeat split; auto.
    + now rewrite lookup_tags_normalize_description, DictFacts.lookup_set_eq.
    + apply normalize_description_not_none.
    + rewrite lookup_normalize_description_ne by discriminate.
      rewrite DictFacts.lookup_set_ne by discriminate.
      apply DictFacts.lookup_remove_eq.
    + intros k Hk1 Hk2 Hk3.
      rewrite lookup_normalize_description_ne by assumption.
      rewrite DictFacts.lookup_set_ne by congruence.
      apply DictFacts.lookup_remove_ne. congruence.
Qed.

Lemma for_each_getInfoForIDs_item incl (reply : dict) :
  forallb (well_formed_info incl) (map snd reply) = true ->
  exists ds,
    for_each (fun kv => getInfoForIDs_item incl (snd kv)) reply = Ret ds
    /\ Forall2 (info_normalizes incl) (map snd reply) ds.
Proof.
  induction reply as [|[k item] reply IH]; intros H.
  - exists []. split; [reflexivity|constructor].
  - simpl in H. apply andb_true_iff in H as [Hi Hr].
    destruct (getInfoForIDs_item_normalizes incl item Hi) as (out & Hout & Hn).
    destruct (IH Hr) as (ds & Hb & Hf).
    exists (out :: ds). simpl. rewrite Hout. simpl. rewrite Hb. simpl.
    split; [reflexivity|now constructor].
Qed.

Lemma check_ids_accepted E ids :
  forallb (accepted_id E) ids = true ->
  (exists us, for_each (check_id E) ids = Ret us)
  /\ for_each as_str ids = Ret (map id_text ids).
Proof.
  induction ids as [|v ids IH]; intros H.
  - split; [now exists []|reflexivity].
  - simpl in H. apply andb_true_iff in H as [Hv Hr].
    destruct (IH Hr) as [[us Hus] Hstr].
    unfold accepted_id in Hv. destruct v as [| | |t| |]; try discriminate.
    simpl. destruct (py_int E t); [|discriminate]. simpl.
    rewrite Hus, Hstr. simpl. split; [now eexists|reflexivity].
Qed.

(** X16.  Given ids that are all strings of integers, [getInfoForIDs]
    makes one request, for the ids joined by commas, and when the reply
    is an object of descriptors with null, absent or well-formed tags it
    returns one descriptor per entry of the reply, in the order of the
    reply: the entry with its tags replaced by the sorted tag texts, a
    description that is not null, [raw_indicator] deleted when the
    indicator is not to be in the output, and every other field as it
    was. *)
Theorem getInfoForIDs_reply (E : Env) (ids : list json) (token : string)
  (incl : bool) (reply : dict) (w : world) :
  forallb (accepted_id E) ids = true ->
  APP_TOKEN E = Some token ->
  server E (length (requests w)) (get_request (descriptors_url E token ids))
  = HttpResponse (Some (JObj reply)) ->
  forallb (well_formed_info incl) (map snd reply) = true ->
  exists descriptors,
    getInfoForIDs E ids incl w
    = (Ret descriptors,
       add_requests w [get_request (descriptors_url E token ids)])
    /\ Forall2 (info_normalizes incl) (map snd reply) descriptors.
Proof.
  intros Hids Htok Hsrv Hwf.
  destruct (check_ids_accepted E ids Hids) as [[us Hus] Hstr].
  destruct (for_each_getInfoForIDs_item incl reply Hwf) as (ds & Hds & Hall).
  exists ds. split; [|assumption].
  unfold getInfoForIDs, app_token. rewrite Htok.
  rewrite (run_bind_lift _ _ _ _ Hus).
  rewrite (run_bind_lift _ _ _ token eq_refl).
  rewrite (run_bind_lift _ _ _ _ Hstr).
  fold (descriptors_url E token ids).
  rewrite (run_bind_ret _ _ _ _ _
             (getJSONFromURL_response E _ w (JObj reply) Hsrv)).
  rewrite (run_bind_lift _ _ _ reply eq_refl).
  unfold lift. now rewrite Hds.
Qed.

Lemma getInfoForIDs_reply_witness :
  exists descriptors,
    getInfoForIDs (Fixture.env [HttpResponse (Some Fixture.source_reply)])
      [JStr "123"] true Fixture.empty_world
    = (Ret descriptors,
       add_requests Fixture.empty_world
         [get_request
            (descriptors_url
               (Fixture.env [HttpResponse (Some Fixture.source_reply)])
               "TOKEN" [JStr "123"])])
    /\ Forall2 (info_normalizes true)
         (map snd
            [ ("123",
               JObj [ ("raw_indicator", JStr "abc");
                      ("reactions", JObj [("1234567", JArr [JStr "HELPFUL"])]);
                      ("tags", JNull) ]) ])
         descriptors.
Proof.
  apply (getInfoForIDs_reply
           (Fixture.env [HttpResponse (Some Fixture.source_reply)])
           [JStr "123"] "TOKEN" true
           [ ("123",
              JObj [ ("raw_indicator", JStr "abc");
                     ("reactions", JObj [("1234567", JArr [JStr "HELPFUL"])]);
                     ("tags", JNull) ]) ]
           Fixture.empty_world); reflexivity.
Defined.

(** X17.  Without an app token every read entry point raises [TypeError]
    while it builds its URL, before any request or callback, and so does
    a submission that passes the validation: nothing is sent without a
    token. *)
Theorem no_token_no_request (E : Env) (p : loc) (d : dict) (w : world)
  (fuel : nat) (tagID tagName : string) (o : tag_options) (urlParams : dict)
  (incl showURLs dryRun : bool) :
  APP_TOKEN E = None ->
  heap w !! p = Some d ->
  present d "descriptor_id" = false -> missing_fields d = [] ->
  processDescriptorIDsByTagID E fuel tagID o w = (Raise TypeError, w)
  /\ doPowerSearch E fuel urlParams incl w = (Raise TypeError, w)
  /\ getTagIDFromName E tagName showURLs w = (Raise TypeError, w)
  /\ submitThreatDescriptor E p showURLs dryRun w = (Raise TypeError, w).
Proof.
  intros Htok H Hid Hm. repeat split.
  - unfold processDescriptorIDsByTagID, tagged_objects_url, app_token.
    now rewrite Htok.
  - unfold doPowerSearch, power_search_url, app_token. now rewrite Htok.
  - unfold getTagIDFromName, app_token. now rewrite Htok.
  - unfold submitThreatDescriptor, app_token.
    rewrite (run_bind_ret _ _ _ _ _
               (validatePostPararmsForSubmit_passes p d w H Hid Hm)).
    now rewrite Htok.
Qed.

Lemma no_token_no_request_witness :
  let E := {| TE_BASE_URL := DEFAULT_TE_BASE_URL;
              APP_TOKEN := None;
              server := fun _ _ => HttpResponse (Some JNull);
              quote := fun s => s;
              py_str := Fixture.str_of;
              urlencode := fun _ => EmptyString;
              py_int := Fixture.int_of_string;
              strptime_timestamp := fun _ _ => Raise ValueError;
              now_minus := fun n => Ret (1600000000 - n) |} in
  submitThreatDescriptor E 0%nat false false
    (Fixture.world_with Fixture.submit_params)
  = (Raise TypeError, Fixture.world_with Fixture.submit_params).
Proof.
  intros E.
  apply (no_token_no_request E 0%nat Fixture.submit_params
           (Fixture.world_with Fixture.submit_params) 1 "1" "t"
           default_tag_options [] true false false); reflexivity.
Defined.

(** ** Edges of the pagination *)

(** X18.  A [paging.next] that is there but null ends the pagination
    like a missing one: after a chain of linked pages and a last page
    with a null link, [processDescriptorIDsByTagID] returns, having
    invoked the callback once per page, in order. *)
Theorem processDescriptorIDsByTagID_null_link (E : Env) (fuel : nat)
  (tagID : string) (o : tag_options) (start : string) (pages : list json)
  (last : json) (w : world) :
  tagged_objects_url E tagID o = Ret start ->
  chained_pages pages = true ->
  well_formed_page last = true ->
  page_next last = Some JNull ->
  serves E (length (requests w))
    (page_urls start pages ++ [last_link start pages]) (pages ++ [last]) ->
  (length pages < fuel)%nat ->
  processDescriptorIDsByTagID E fuel tagID o w
  = (Ret (),
     World (requests w
            ++ map get_request (page_urls start pages ++ [last_link start pages]))
           (callbacks w
            ++ map (fun r => descriptor_ids (page_items r)) (pages ++ [last]))
           (heap w)).
Proof.
  intros Hurl Hc Hwf Hnull Hs Hf. unfold processDescriptorIDsByTagID.
  rewrite (run_bind_lift _ _ _ _ Hurl).
  assert (Hlen : forall start, length (page_urls start pages) = length pages).
  { clear -Hc. induction pages as [|r rest IH]; intros start; [reflexivity|].
    cbn [chained_pages] in Hc. apply andb_true_iff in Hc as [_ Hc].
    cbn [page_urls length]. destruct (page_next r) as [[| | |u| |]|];
      try discriminate. now rewrite IH. }
  assert (Hsplit : forall n urls ps u r,
    length urls = length ps ->
    serves E n (urls ++ [u]) (ps ++ [r]) ->
    serves E n urls ps
    /\ server E (n + length ps) (get_request u) = HttpResponse (Some r)).
  { clear. intros n urls. revert n.
    induction urls as [|x urls IH]; intros n [|q ps] u r Hl Hsv;
      try discriminate.
    - simpl in *. rewrite Nat.add_0_r. tauto.
    - simpl in Hl. injection Hl as Hl. cbn [app serves] in Hsv.
      destruct Hsv as [Hx Hsv]. destruct (IH (S n) ps u r Hl Hsv) as [H1 H2].
      cbn [serves length]. split; [tauto|].
      now replace (n + S (length ps))%nat with (S n + length ps)%nat by lia. }
  destruct (Hsplit _ _ _ _ _ (Hlen start) Hs) as [Hs1 Hs2].
  replace fuel with (length pages + S (fuel - length pages - 1))%nat by lia.
  rewrite (tagged_pages_loop_chain E o pages start _ 0 w Hc Hs1).
  rewrite (tagged_pages_loop_step E o _ _ _ _ last Hwf).
  - rewrite Hnull. cbn [requests callbacks heap].
    rewrite !map_app, <- !app_assoc. cbn [map app].
    destruct (fuel - length pages - 1)%nat; reflexivity.
  - cbn [requests]. rewrite length_app, length_map, Hlen. exact Hs2.
Qed.

Lemma processDescriptorIDsByTagID_null_link_witness :
  processDescriptorIDsByTagID
    (Fixture.env
       [ HttpResponse
           (Some (JObj [ ("data", JArr []);
                         ("paging", JObj [("next", JNull)]) ]));
         HttpResponse (Some Fixture.page_two) ])
    4 "9999338387644295" default_tag_options Fixture.empty_world
  = (Ret (),
     World
       [get_request
          "https://graph.facebook.com/v6.0/9999338387644295/tagged_objects/?access_token=TOKEN&limit=10"]
       [[]] []).
Proof.
  apply (processDescriptorIDsByTagID_null_link
           (Fixture.env
              [ HttpResponse
                  (Some (JObj [ ("data", JArr []);
                                ("paging", JObj [("next", JNull)]) ]));
                HttpResponse (Some Fixture.page_two) ])
           4 "9999338387644295" default_tag_options
           "https://graph.facebook.com/v6.0/9999338387644295/tagged_objects/?access_token=TOKEN&limit=10"
           []
           (JObj [ ("data", JArr []); ("paging", JObj [("next", JNull)]) ])
           Fixture.empty_world).
  - reflexivity.
  - reflexivity.
  - reflexivity.
  - reflexivity.
  - simpl. split; [reflexivity|exact I].
  - simpl. lia.
Defined.

Lemma for_each_tagged_item_no_name incl pre item post d :
  forallb well_formed_item pre = true ->
  item = JObj d ->
  Dict.mem "id" d = true -> Dict.mem "type" d = true ->
  Dict.mem "name" d = false ->
  for_each (tagged_item_id incl) (pre ++ item :: post)
  = Raise (KeyError "name").
Proof.
  intros Hpre -> Hid Hty Hname. induction pre as [|x pre IH].
  - simpl. unfold tagged_item_id. simpl. unfold Dict.mem in *.
    destruct (Dict.lookup "id" d); [|discriminate].
    destruct (Dict.lookup "type" d); [|discriminate]. simpl.
    destruct (Dict.lookup "name" d); [discriminate|].
    now destruct incl.
  - simpl in Hpre. apply andb_true_iff in Hpre as [Hx Hpre].
    simpl. rewrite (tagged_item_id_spec incl x Hx). simpl.
    now rewrite (IH Hpre).
Qed.

(** X19.  Every item of a page has to have a [name], used or not: when
    an item with [id] and [type] but without [name] comes after
    well-formed items on the first page, [processDescriptorIDsByTagID]
    raises [KeyError] for [name] and the callback is not invoked for the
    page, whether the indicator is to be in the output or not and
    whatever the type of the item. *)
Theorem processDescriptorIDsByTagID_missing_name (E : Env) (fuel : nat)
  (tagID : string) (o : tag_options) (start : string) (r : json)
  (pre post : list json) (d : dict) (w : world) :
  tagged_objects_url E tagID o = Ret start ->
  server E (length (requests w)) (get_request start) = HttpResponse (Some r) ->
  field r "data" = Some (JArr (pre ++ JObj d :: post)) ->
  field r "paging" = None ->
  forallb well_formed_item pre = true ->
  Dict.mem "id" d = true -> Dict.mem "type" d = true ->
  Dict.mem "name" d = false ->
  processDescriptorIDsByTagID E (S fuel) tagID o w
  = (Raise (KeyError "name"), add_requests w [get_request start]).
Proof.
  intros Hurl Hsrv Hdata Hpaging Hpre Hid Hty Hname.
  unfold processDescriptorIDsByTagID.
  rewrite (run_bind_lift _ _ _ _ Hurl).
  cbn [tagged_pages_loop is_none].
  rewrite (run_bind_ret _ _ _ _ _ (getJSONFromURL_response E start w r Hsrv)).
  unfold field in Hdata, Hpaging. destruct r as [| | | | |rd]; try discriminate.
  rewrite (run_bind_lift _ _ _ (JArr (pre ++ JObj d :: post)))
    by (simpl; now rewrite Hdata).
  rewrite (run_bind_lift _ _ _ JNull)
    by (unfold next_url; simpl; unfold Dict.mem; now rewrite Hpaging).
  unfold mbind at 1, M_bind, lift, page_ids. simpl py_iter.
  cbn [mbind outcome_bind].
  now rewrite (for_each_tagged_item_no_name _ pre (JObj d) post d Hpre eq_refl
                 Hid Hty Hname).
Qed.

Lemma processDescriptorIDsByTagID_missing_name_witness :
  processDescriptorIDsByTagID
    (Fixture.env
       [ HttpResponse
           (Some (JObj [ ("data",
                          JArr [ JObj [("id", JStr "1");
                                       ("type", JStr "MALWARE_ANALYSES")] ]) ])) ])
    1 "9999338387644295" default_tag_options Fixture.empty_world
  = (Raise (KeyError "name"),
     add_requests Fixture.empty_world
       [get_request
          "https://graph.facebook.com/v6.0/9999338387644295/tagged_objects/?access_token=TOKEN&limit=10"]).
Proof.
  apply (processDescriptorIDsByTagID_missing_name
           (Fixture.env
              [ HttpResponse
                  (Some (JObj [ ("data",
                                 JArr [ JObj [("id", JStr "1");
                                              ("type", JStr "MALWARE_ANALYSES")] ]) ])) ])
           0 "9999338387644295" default_tag_options
           "https://graph.facebook.com/v6.0/9999338387644295/tagged_objects/?access_token=TOKEN&limit=10"
           (JObj [ ("data",
                    JArr [ JObj [("id", JStr "1");
                                 ("type", JStr "MALWARE_ANALYSES")] ]) ])
           [] []
           [("id", JStr "1"); ("type", JStr "MALWARE_ANALYSES")]
           Fixture.empty_world); reflexivity.
Defined.

(** ** Configuration *)



(** ** Stripping the indicator in a power search *)

Lemma for_each_doPowerSearch_no_name pre d post :
  forallb (well_formed_descriptor false) pre = true ->
  Dict.mem "name" d = false ->
  for_each (doPowerSearch_item false) (pre ++ JObj d :: post)
  = Raise (KeyError "name").
Proof.
  intros Hpre Hname. induction pre as [|x pre IH].
  - simpl. unfold doPowerSearch_item. simpl. now rewrite Hname.
  - simpl in Hpre. apply andb_true_iff in Hpre as [Hx Hpre].
    destruct (doPowerSearch_item_normalizes false x Hx) as (out & Hout & _).
    simpl. rewrite Hout. simpl. now rewrite (IH Hpre).
Qed.

(** X21.  With the indicator stripped from the output, [doPowerSearch]
    deletes [name] from every descriptor, and a descriptor without a
    [name] (the field list of the request asks for [raw_indicator], not
    for [name]) makes it raise [KeyError] for [name] before the callback
    is invoked for the page. *)
Theorem doPowerSearch_strip_requires_name (E : Env) (fuel : nat)
  (urlParams : dict) (start : string) (r : json) (pre post : list json)
  (d : dict) (w : world) :
  power_search_url E urlParams = Ret start ->
  server E (length (requests w)) (get_request start) = HttpResponse (Some r) ->
  field r "data" = Some (JArr (pre ++ JObj d :: post)) ->
  field r "paging" = None ->
  forallb (well_formed_descriptor false) pre = true ->
  Dict.mem "name" d = false ->
  doPowerSearch E (S fuel) urlParams false w
  = (Raise (KeyError "name"), add_requests w [get_request start]).
Proof.
  intros Hurl Hsrv Hdata Hpaging Hpre Hname. unfold doPowerSearch.
  rewrite (run_bind_lift _ _ _ _ Hurl).
  cbn [power_search_loop is_none].
  rewrite (run_bind_ret _ _ _ _ _ (getJSONFromURL_response E start w r Hsrv)).
  unfold field in Hdata, Hpaging. destruct r as [| | | | |rd]; try discriminate.
  rewrite (run_bind_lift _ _ _ (JArr (pre ++ JObj d :: post)))
    by (simpl; now rewrite Hdata).
  rewrite (run_bind_lift _ _ _ JNull)
    by (unfold next_url; simpl; unfold Dict.mem; now rewrite Hpaging).
  rewrite (run_bind_lift _ _ _ (pre ++ JObj d :: post)%list) by reflexivity.
  unfold mbind at 1, M_bind, lift.
  now rewrite (for_each_doPowerSearch_no_name pre d post Hpre Hname).
Qed.

Lemma doPowerSearch_strip_requires_name_witness :
  doPowerSearch
    (Fixture.env
       [ HttpResponse
           (Some (JObj [ ("data",
                          JArr [ JObj [ ("raw_indicator", JStr "abc");
                                        ("type", JStr "HASH_MD5") ] ]) ])) ])
    1 [] false Fixture.empty_world
  = (Raise (KeyError "name"),
     add_requests Fixture.empty_world
       [get_request
          (DEFAULT_TE_BASE_URL ++ "/threat_descriptors/?access_token=TOKEN"
           ++ descriptor_fields)]).
Proof.
  apply (doPowerSearch_strip_requires_name
           (Fixture.env
              [ HttpResponse
                  (Some (JObj [ ("data",
                                 JArr [ JObj [ ("raw_indicator", JStr "abc");
                                               ("type", JStr "HASH_MD5") ] ]) ])) ])
           0 []
           (DEFAULT_TE_BASE_URL ++ "/threat_descriptors/?access_token=TOKEN"
            ++ descriptor_fields)
           (JObj [ ("data",
                    JArr [ JObj [ ("raw_indicator", JStr "abc");
                                  ("type", JStr "HASH_MD5") ] ]) ])
           [] []
           [ ("raw_indicator", JStr "abc"); ("type", JStr "HASH_MD5") ]
           Fixture.empty_world); reflexivity.
Defined.
